(** * TextExtractorTool: the text normalizer and the OCR driver

    A shallow embedding of [text_cleaner.py] and of the slicing, filtering
    and command-line parts of [ocr_tesseract.py], with the properties of
    the design document proved (or refuted) on it.

    Conventions.
    - A Python [str] is a sequence of Unicode code points: [str := list N].
      [len] is [length]; slicing is [firstn] and [skipn].
    - A Python [int] is a [Z], or a [nat] when it is a length or a counter.
    - A Python [float] is read as the rational number it stands for ([Q]):
      the quotient of two lengths is the exact quotient, and the height of
      a PDF page is a rational.  The integers the slicing loop compares
      with that height are exactly representable as floats for any page
      height below 2^53, so that the comparisons of the loop are exact.
    - A computation that may raise returns a [result]: the exception on
      the left, the value on the right.
    - The paths are POSIX paths, as on the macOS system the scripts target.
    - The Unicode tables behind [\w] and [str.isdigit] belong to Python,
      not to the repository: they are Variables of the sections that need
      them. *)

From Stdlib Require Import List Bool Arith ZArith NArith Lia.
From Stdlib Require Import QArith Qround Qabs Qminmax Lqa.
From Stdlib Require Import Ascii.
From Stdlib Require String DecimalString.
Import ListNotations String.StringSyntax.

Close Scope Q_scope.
Open Scope N_scope.
Delimit Scope string_scope with string.

(** ** Strings *)

Definition char := N.
Definition str := list char.

(** An ASCII literal of the source as a [str]. *)
Definition lit (s : String.string) : str :=
  map N_of_ascii (String.list_ascii_of_string s).
Arguments lit s%_string.

Definition char_eqb (a b : char) : bool := N.eqb a b.

Fixpoint str_eqb (a b : str) : bool :=
  match a, b with
  | [], [] => true
  | x :: a', y :: b' => (char_eqb x y && str_eqb a' b')%bool
  | _, _ => false
  end.

Definition in_range (lo hi c : char) : bool := (N.leb lo c && N.leb c hi)%bool.

(** [Py_UNICODE_ISSPACE]: the characters [str.strip()] removes and the
    class [\s] of a [str] pattern matches. *)
Definition isspace (c : char) : bool :=
  (in_range 9 13 c || in_range 28 32 c || char_eqb c 133 || char_eqb c 160
   || char_eqb c 5760 || in_range 8192 8202 c || char_eqb c 8232
   || char_eqb c 8233 || char_eqb c 8239 || char_eqb c 8287
   || char_eqb c 12288)%bool.

Fixpoint lstrip (s : str) : str :=
  match s with
  | [] => []
  | c :: s' => if isspace c then lstrip s' else s
  end.

Definition rstrip (s : str) : str := rev (lstrip (rev s)).

(** [s.strip()] *)
Definition strip (s : str) : str := rstrip (lstrip s).

(** [re.sub(r'\s+', '', s)]: every maximal run of whitespace is deleted,
    that is, every whitespace character is. *)
Definition re_sub_spaces (s : str) : str := filter (fun c => negb (isspace c)) s.

(** [s.replace(half, full)] for one-character [half] and [full]. *)
Definition replace (half full : char) (s : str) : str :=
  map (fun c => if char_eqb c half then full else c) s.

(** Splitting at every character of a class: [s.split(sep)] for a
    one-character separator, [re.split('[...]', s)] for a class.  The result
    always has at least one field. *)
Fixpoint split_on (sep : char -> bool) (s : str) : list str :=
  match s with
  | [] => [[]]
  | c :: s' =>
      if sep c then [] :: split_on sep s'
      else match split_on sep s' with
           | [] => [[c]]
           | f :: fs => (c :: f) :: fs
           end
  end.

(** [sep.join(parts)] *)
Fixpoint join (sep : str) (parts : list str) : str :=
  match parts with
  | [] => []
  | [p] => p
  | p :: ps => p ++ sep ++ join sep ps
  end.

(** ** Exceptions

    A computation that may raise returns [inl e]; [x <- c ;; k] runs [k] on
    the value of [c] and propagates what [c] raises. *)

Inductive exn :=
  FileNotFoundError | ZeroDivisionError | IndexError | OSError
  | UnicodeEncodeError.

Definition result (A : Type) : Type := (exn + A)%type.

Definition ret {A : Type} (a : A) : result A := inr a.

Definition raise {A : Type} (e : exn) : result A := inl e.

Definition bind {A B : Type} (c : result A) (k : A -> result B) : result B :=
  match c with
  | inl e => inl e
  | inr a => k a
  end.

Notation "x <- c ;; k" := (bind c (fun x => k))
  (at level 61, c at next level, right associativity).

(** [parts[i]] for [i >= 0] *)
Definition index (parts : list str) (i : nat) : result str :=
  match nth_error parts i with
  | Some p => ret p
  | None => raise IndexError
  end.

(** ** text_cleaner.py *)

Module Cleaner.

(** The dict [punctuation_map], in insertion order. *)
Definition punctuation_map : list (char * char) :=
  [ (44, 65292)   (* ',' -> U+FF0C *)
  ; (46, 12290)   (* '.' -> U+3002 *)
  ; (33, 65281)   (* '!' -> U+FF01 *)
  ; (63, 65311)   (* '?' -> U+FF1F *)
  ; (58, 65306)   (* ':' -> U+FF1A *)
  ; (59, 65307)   (* ';' -> U+FF1B *)
  ; (40, 65288)   (* '(' -> U+FF08 *)
  ; (41, 65289)   (* ')' -> U+FF09 *)
  ].

Definition normalize_text (text : str) : str :=
  let cleaned := re_sub_spaces (strip text) in
  fold_left (fun cleaned hf => replace (fst hf) (snd hf) cleaned)
            punctuation_map cleaned.

(** The class [[。！？；]] of [split_into_sentences]. *)
Definition sentence_end (c : char) : bool :=
  (char_eqb c 12290 || char_eqb c 65281 || char_eqb c 65311
   || char_eqb c 65307)%bool.

Definition split_into_sentences (text : str) : list str :=
  let sentences := split_on sentence_end text in
  map strip (filter (fun s => Nat.ltb 5 (length (strip s))) sentences).

(** The body of the [for] loop of [split_into_paragraphs]; the state is
    the pair [(paragraphs, current_para)]. *)
Definition para_step (min_length : Z) (st : list str * str) (sentence : str)
  : list str * str :=
  let '(paragraphs, current_para) := st in
  if Nat.ltb (length current_para + length sentence)%nat 500 then
    (paragraphs, current_para ++ sentence ++ [12290])
  else
    ((if Z.leb min_length (Z.of_nat (length current_para))
      then paragraphs ++ [current_para] else paragraphs),
     sentence ++ [12290]).

Definition split_into_paragraphs (text : str) (min_length : Z) : list str :=
  let sentences := split_into_sentences text in
  let '(paragraphs, current_para) :=
    fold_left (para_step min_length) sentences ([], []) in
  if Z.leb min_length (Z.of_nat (length current_para))
  then paragraphs ++ [current_para] else paragraphs.

Definition default_min_length : Z := 50.

(** *** Metadata from the file name *)

(** [PurePosixPath(filename).name]: the last component of the path; empty
    components and [.] components are dropped by the path parser. *)
Definition path_name (filename : str) : str :=
  let parts :=
    filter (fun p => negb (Nat.eqb (length p) 0 || str_eqb p (lit ".")))
           (split_on (char_eqb 47) filename) in
  last parts [].

(** [name.rfind('.')]: the index of the last dot, [-1] when there is none. *)
Fixpoint rfind_dot (i : Z) (s : str) : Z :=
  match s with
  | [] => (-1)%Z
  | c :: s' =>
      let r := rfind_dot (i + 1)%Z s' in
      if Z.eqb r (-1) then (if char_eqb c 46 then i else (-1)%Z) else r
  end.

(** [PurePath.stem] (Python 3.13 and earlier): the name without its last
    suffix; a leading or a trailing dot does not start a suffix. *)
Definition path_stem (filename : str) : str :=
  let name := path_name filename in
  let i := rfind_dot 0 name in
  if (Z.ltb 0 i && Z.ltb i (Z.of_nat (length name) - 1))%bool
  then firstn (Z.to_nat i) name else name.

Record Metadata := mkMetadata { title : str; date : str; page_info : str }.

Section Metadata.

(** [Py_UNICODE_ISDIGIT], from the Unicode database. *)
Variable unicode_isdigit : char -> bool.

(** [s.isdigit()]: at least one character, and all of them digits. *)
Definition str_isdigit (s : str) : bool :=
  (negb (Nat.eqb (length s) 0) && forallb unicode_isdigit s)%bool.

Definition extract_metadata_from_filename (filename : str) : result Metadata :=
  let name_without_ext := path_stem filename in
  let parts := split_on (char_eqb 95) name_without_ext in
  let metadata := mkMetadata [] [] [] in
  metadata <-
    (if Nat.leb 1 (length parts) then
       title' <- index parts 0 ;;
       ret (mkMetadata title' (date metadata) (page_info metadata))
     else ret metadata) ;;
  metadata <-
    (if Nat.leb 2 (length parts) then
       date_str <- index parts 1 ;;
       if (Nat.leb 8 (length date_str) && str_isdigit (firstn 8 date_str))%bool
       then
         let year := firstn 4 date_str in
         let month := firstn 2 (skipn 4 date_str) in
         let day := firstn 2 (skipn 6 date_str) in
         ret (mkMetadata (title metadata)
                         (year ++ lit "-" ++ month ++ lit "-" ++ day)
                         (page_info metadata))
       else ret metadata
     else ret metadata) ;;
  metadata <-
    (if Nat.leb 3 (length parts)
     then ret (mkMetadata (title metadata) (date metadata)
                          (join (lit "_") (skipn 2 parts)))
     else ret metadata) ;;
  ret metadata.

End Metadata.

(** *** Size statistics *)

(** Rounding a non-negative rational to the nearest integer, ties to even. *)
Definition round_half_even (x : Q) : Z :=
  let f := Qfloor x in
  match Qcompare (x - inject_Z f) (1 # 2) with
  | Lt => f
  | Gt => (f + 1)%Z
  | Eq => if Z.even f then f else (f + 1)%Z
  end.

Definition decimal (n : Z) : str :=
  lit (DecimalString.NilZero.string_of_uint (N.to_uint (Z.to_N n))).

(** [f'{v:.2f}'] on the exact value [v].  The code formats the binary64
    value computed for [v]; where the exact value lies halfway between two
    hundredths the two texts can differ in the last digit. *)
Definition format_2f (v : Q) : str :=
  let h := round_half_even (Qabs v * 100) in
  let frac := decimal (h mod 100) in
  (if Qle_bool 0 v then [] else lit "-")
    ++ decimal (h / 100) ++ lit "."
    ++ (if Nat.ltb (length frac) 2 then lit "0" else []) ++ frac.

Record Stats := mkStats
  { original_length : nat
  ; cleaned_length : nat
  ; sentence_count : nat
  ; paragraph_count : nat
  ; compression_ratio : str }.

(** [len(normalized_text) / len(raw_text)]: true division, which raises on
    a zero divisor. *)
Definition true_div (a b : nat) : result Q :=
  match b with
  | O => raise ZeroDivisionError
  | S _ => ret (inject_Z (Z.of_nat a) / inject_Z (Z.of_nat b))%Q
  end.

(** The value the f-string of [compression_ratio] formats. *)
Definition ratio_value (cleaned original : nat) : result Q :=
  q <- true_div cleaned original ;;
  ret ((1 - q) * 100)%Q.

Definition compute_stats (raw_text normalized_text : str)
                         (sentences paragraphs : list str) : result Stats :=
  v <- ratio_value (length normalized_text) (length raw_text) ;;
  ret (mkStats (length raw_text) (length normalized_text)
               (length sentences) (length paragraphs)
               (format_2f v ++ lit "%")).

Record CleanResult := mkCleanResult
  { metadata : Metadata
  ; raw_text : str
  ; normalized_text : str
  ; sentences : list str
  ; paragraphs : list str
  ; stats : Stats }.

Section Clean.

Variable unicode_isdigit : char -> bool.

(** [clean_ocr_text_file], from the existence test to the [stats] dict.
    The input file is its name and its content, [None] when the file does
    not exist; the header and the paragraphs written to the output file
    are not modelled. *)
Definition clean_ocr_text_file (name : str) (content : option str)
  : result CleanResult :=
  match content with
  | None => raise FileNotFoundError
  | Some raw_text =>
      metadata <- extract_metadata_from_filename unicode_isdigit name ;;
      let normalized_text := normalize_text raw_text in
      let sentences := split_into_sentences normalized_text in
      let paragraphs := split_into_paragraphs normalized_text default_min_length in
      stats <- compute_stats raw_text normalized_text sentences paragraphs ;;
      ret (mkCleanResult metadata raw_text normalized_text
                         sentences paragraphs stats)
  end.

End Clean.

(** *** The cleaned file and the batch *)

(** The text [clean_ocr_text_file] writes to the output file: the six
    lines of the header (title U+6807 U+9898, date U+65E5 U+671F, page
    information U+9875 U+9762 U+4FE1 U+606F, original length U+539F U+59CB
    U+957F U+5EA6, cleaned length U+6E05 U+6D17 U+540E U+957F U+5EA6,
    compression ratio U+538B U+7F29 U+7387; the lengths are followed by
    the word U+5B57 U+7B26), the separator of 60 equals signs, and one
    write for each paragraph. *)
Definition output_text (metadata : Metadata) (stats : Stats)
                       (paragraphs : list str) : str :=
  ([35; 32; 26631; 39064; 58; 32] ++ title metadata ++ [10])
  ++ ([35; 32; 26085; 26399; 58; 32] ++ date metadata ++ [10])
  ++ ([35; 32; 39029; 38754; 20449; 24687; 58; 32]
      ++ page_info metadata ++ [10])
  ++ ([35; 32; 21407; 22987; 38271; 24230; 58; 32]
      ++ decimal (Z.of_nat (original_length stats))
      ++ [32; 23383; 31526] ++ [10])
  ++ ([35; 32; 28165; 27927; 21518; 38271; 24230; 58; 32]
      ++ decimal (Z.of_nat (cleaned_length stats))
      ++ [32; 23383; 31526] ++ [10])
  ++ ([35; 32; 21387; 32553; 29575; 58; 32]
      ++ compression_ratio stats ++ [10])
  ++ ([10] ++ repeat 61 60 ++ [10; 10])
  ++ concat (map (fun para => para ++ [10; 10]) paragraphs).

(** The characters the UTF-8 codec encodes: the code points up to
    U+10FFFF, the surrogates U+D800 - U+DFFF apart. *)
Definition utf8_encodable (c : char) : bool :=
  (N.leb c 1114111 && negb (in_range 55296 57343 c))%bool.

Section Write.

Variable unicode_isdigit : char -> bool.

(** [clean_ocr_text_file] with the write of the output file.  The part
    before the write is [clean_ocr_text_file]; [can_write] tells whether
    the output file can be opened and written to, and the write of a text
    that the codec cannot encode raises.  The function returns the result
    together with the text of the output file. *)
Definition clean_ocr_text_file_written (name : str) (content : option str)
           (can_write : bool) : result (CleanResult * str) :=
  res <- clean_ocr_text_file unicode_isdigit name content ;;
  if negb can_write then raise OSError
  else
    let text := output_text (metadata res) (stats res) (paragraphs res) in
    if forallb utf8_encodable text then ret (res, text)
    else raise UnicodeEncodeError.

End Write.

(** What [batch_clean_directory] raises itself: its own error on a path
    that is not a directory, the error of [mkdir] when the output
    directory cannot be created, the error of [glob] on a pattern it does
    not accept, and the error of [print] on a file name that standard
    output cannot encode. *)
Inductive batch_exn :=
  NotADirectoryError | MkdirError | GlobError | PrintError.

(** A file the pattern matches: its name, whether the line that announces
    it can be printed ([false] when the name holds a character that
    standard output cannot encode), its content as [open] and [read] give
    it ([None] when they raise: the file is gone, cannot be read or is not
    UTF-8 text), and whether the cleaned file can be written ([false] when
    the write raises). *)
Record BatchFile := mkBatchFile
  { file_name : str
  ; name_printed : bool
  ; file_content : option str
  ; output_written : bool }.

Section Batch.

Variable unicode_isdigit : char -> bool.

(** The [try] block of the loop over the files: it appends the result of a
    file, and its handler of [Exception] only prints.  The result of a
    file is returned after its output has been written; the messages
    printed after the result has been appended do not change the list. *)
Definition batch_step (results : list CleanResult) (file : BatchFile)
  : list CleanResult :=
  match clean_ocr_text_file unicode_isdigit (file_name file)
                            (file_content file) with
  | inr result =>
      if output_written file then results ++ [result] else results
  | inl _ => results
  end.

(** The loop over the files: the line that announces a file is printed
    before the [try] block, so its error ends the loop and the function. *)
Fixpoint batch_loop (files : list BatchFile) (results : list CleanResult)
  : batch_exn + list CleanResult :=
  match files with
  | [] => inr results
  | file :: rest =>
      if negb (name_printed file) then inl PrintError
      else batch_loop rest (batch_step results file)
  end.

(** [batch_clean_directory]: whether the input path is a directory,
    whether the output directory exists or can be created, and the files
    the pattern matches ([None] when [glob] raises).  The messages with a
    fixed text are not modelled: standard output is taken to accept
    them. *)
Definition batch_clean_directory (is_dir mkdir_ok : bool)
                                 (matched : option (list BatchFile))
  : batch_exn + list CleanResult :=
  if negb is_dir then inl NotADirectoryError
  else if negb mkdir_ok then inl MkdirError
  else
    match matched with
    | None => inl GlobError
    | Some [] => inr []
    | Some (file :: rest) => batch_loop (file :: rest) []
    end.

End Batch.

End Cleaner.

(** ** ocr_tesseract.py *)

Module Ocr.

(** *** The garbled-text filter *)

(** The punctuation listed literally in the first character class:
    backslash, slash, colon, dot, comma, exclamation mark, question mark,
    semicolon, double quote, quote, parentheses, brackets, braces, hyphen,
    plus, equals, angle brackets. *)
Definition normal_punct : list char :=
  [92; 47; 58; 46; 44; 33; 63; 59; 34; 39; 40; 41; 91; 93; 123; 125;
   45; 43; 61; 60; 62].

(** The second character class: exclamation mark, at sign, hash, dollar,
    percent, caret, ampersand, asterisk, parentheses, underscore, plus,
    equals, braces, brackets, pipe, backslash, colon, semicolon, double
    quote, quote, angle brackets, comma, question mark, slash. *)
Definition noise_symbols : list char :=
  [33; 64; 35; 36; 37; 94; 38; 42; 40; 41; 95; 43; 61; 123; 125; 91; 93;
   124; 92; 58; 59; 34; 39; 60; 62; 44; 63; 47].

Definition noise (c : char) : bool := existsb (char_eqb c) noise_symbols.

(** [re.search('[cls]{n,}', s)], scanning left to right; [run] is the length
    of the run of class characters that ends just before [s]. *)
Fixpoint re_search_run (cls : char -> bool) (n run : nat) (s : str) : bool :=
  match s with
  | [] => false
  | c :: s' =>
      if cls c
      then (if Nat.leb n (S run) then true else re_search_run cls n (S run) s')
      else re_search_run cls n 0 s'
  end.

(** [not s.strip()] *)
Definition blank (s : str) : bool :=
  match strip s with [] => true | _ :: _ => false end.

Definition Qlt_bool (a b : Q) : bool := negb (Qle_bool b a).

Section Filter.

(** [Py_UNICODE_ISALNUM], from the Unicode database. *)
Variable unicode_isalnum : char -> bool.

(** The class [\w] of a [str] pattern. *)
Definition is_word (c : char) : bool := (unicode_isalnum c || char_eqb c 95)%bool.

(** The first character class, the characters counted as normal. *)
Definition normal (c : char) : bool :=
  (in_range 19968 40959 c      (* U+4E00 - U+9FFF *)
   || is_word c
   || isspace c
   || in_range 12288 12351 c   (* U+3000 - U+303F *)
   || in_range 65280 65519 c   (* U+FF00 - U+FFEF *)
   || existsb (char_eqb c) normal_punct)%bool.

(** [len(re.findall('[...]', line))] *)
Definition normal_chars (line : str) : nat := length (filter normal line).

(** [normal_chars / total_chars], for a line that is not empty. *)
Definition normal_ratio (line : str) : Q :=
  (inject_Z (Z.of_nat (normal_chars line)) / inject_Z (Z.of_nat (length line)))%Q.

(** The body of the [for] loop over the lines. *)
Definition filter_step (filtered_lines : list str) (line : str) : list str :=
  if blank line then filtered_lines ++ [line]
  else
    let total_chars := length line in
    if Nat.eqb total_chars 0 then filtered_lines ++ [line]
    else if Qlt_bool (normal_ratio line) (4 # 10) then filtered_lines
    else if re_search_run noise 10 0 line then filtered_lines
    else filtered_lines ++ [line].

Definition filter_garbled_text (text : str) : str :=
  if blank text then text
  else
    let lines := split_on (char_eqb 10) text in
    join [10] (fold_left filter_step lines []).

End Filter.

(** *** The slicing loop of a page *)

Definition chunk_h : Z := 1500.
Definition overlap : Z := 100.

(** [fitz.Rect(0, y, page_w, y1)], reduced to its vertical range. *)
Record Rect := mkRect { y0 : Z; y1 : Q }.

(** [min(a, b)] of Python: the first argument unless the second is smaller. *)
Definition py_min (a b : Q) : Q := if Qlt_bool b a then b else a.

Section Slicing.

Variable St : Type.

(** What is done with one slice: its index (from 1) and its clip. *)
Variable body : nat -> Rect -> St -> St.

Variable page_h : Q.

(** The [while y < page_h] loop; [fuel] bounds the number of iterations,
    [None] means the bound was reached before the loop ended. *)
Fixpoint slice_loop (fuel : nat) (y : Z) (slice_idx : nat) (st : St)
  : option St :=
  match fuel with
  | O => None
  | S fuel' =>
      if Qlt_bool (inject_Z y) page_h then
        let slice_idx := S slice_idx in
        let clip_rect := mkRect y (py_min (inject_Z (y + chunk_h)) page_h) in
        let st := body slice_idx clip_rect st in
        if Qle_bool page_h (y1 clip_rect) then Some st
        else slice_loop fuel' (y + (chunk_h - overlap))%Z slice_idx st
      else Some st
  end.

End Slicing.

Arguments slice_loop {St} body page_h fuel y slice_idx st.

(** The clips of a page, in order. *)
Definition page_slices (page_h : Q) (fuel : nat) : option (list Rect) :=
  slice_loop (fun _ clip_rect acc => acc ++ [clip_rect]) page_h fuel 0%Z 0%nat [].

(** *** The OCR driver of a PDF document *)

(** The recognition engine: the outcome of [get_languages()] at the query
    number [k] (from 0) of the run, and the outcome of [image_to_string] on
    a slice; [None] when the call raises.  The rendering of a slice and
    the saving of its image, which are outside the [try] block, are taken
    to succeed. *)
Record Engine := mkEngine
  { get_languages : nat -> option (list str)
  ; image_to_string : nat -> Rect -> str -> option str }.

(** The state of a run: the number of queries of the installed languages
    so far, the language profile passed to the engine for each slice so
    far, and the list [full_content]. *)
Record Run := mkRun
  { queries : nat
  ; langs_used : list str
  ; full_content : list str }.

Section Driver.

Variable unicode_isalnum : char -> bool.
Variable engine : Engine.

Definition select_lang (available_langs : list str) : str :=
  if existsb (str_eqb (lit "chi_sim")) available_langs
  then lit "chi_sim+eng" else lit "eng".

(** Step 4 of the loop body, the [try] block around the recognition.  Both
    branches of the test on the first slice ask the engine for its
    languages and select the profile the same way; they differ in what
    they print.  When the query or the recognition raises, the handler of
    the block prints a warning and the slice gives no text; when the query
    raises, no profile is selected and the engine is not called. *)
Definition ocr_slice (page_idx slice_idx : nat) (clip_rect : Rect) (r : Run)
  : Run :=
  let answer := get_languages engine (queries r) in
  let r := mkRun (S (queries r)) (langs_used r) (full_content r) in
  match answer with
  | None => r
  | Some available_langs =>
      let lang :=
        if (Nat.eqb slice_idx 1 && Nat.eqb page_idx 0)%bool
        then select_lang available_langs
        else select_lang available_langs in
      let r := mkRun (queries r) (langs_used r ++ [lang]) (full_content r) in
      match image_to_string engine page_idx clip_rect lang with
      | None => r
      | Some text =>
          let text := filter_garbled_text unicode_isalnum text in
          let text := strip text in
          match text with
          | [] => r
          | _ :: _ =>
              mkRun (queries r) (langs_used r) (full_content r ++ [text])
          end
      end
  end.

(** The [for page_idx, page in enumerate(doc)] loop; a document is the list
    of the heights of its pages. *)
Fixpoint ocr_pages (fuel : nat) (page_idx : nat) (doc : list Q) (r : Run)
  : option Run :=
  match doc with
  | [] => Some r
  | page_h :: doc' =>
      match slice_loop (ocr_slice page_idx) page_h fuel 0%Z 0%nat r with
      | None => None
      | Some r' => ocr_pages fuel (S page_idx) doc' r'
      end
  end.

(** [ocr_pdf_with_tesseract] up to the joined result. *)
Definition ocr_pdf_with_tesseract (fuel : nat) (doc : list Q) : option (Run * str) :=
  match ocr_pages fuel 0 doc (mkRun 0 [] []) with
  | None => None
  | Some r => Some (r, join [10; 10] (full_content r))
  end.

End Driver.

(** *** The command line *)

Record Args := mkArgs
  { path : str; directory : bool; quiet : bool; clean : bool }.

(** What the command line sees of the file system and of the processing of
    one file: [os.path.isdir], [os.path.isfile], [glob.glob] on a directory
    and a pattern, and the result of [process_single_file]. *)
Record World := mkWorld
  { isdir : str -> bool
  ; isfile : str -> bool
  ; glob : str -> str -> list str
  ; process_single_file : str -> bool -> bool -> bool }.

Definition supported_patterns : list str :=
  [ lit "*.pdf"; lit "*.png"; lit "*.PNG"; lit "*.jpg"; lit "*.JPG";
    lit "*.jpeg"; lit "*.JPEG"; lit "*.bmp"; lit "*.BMP"; lit "*.tiff";
    lit "*.TIFF"; lit "*.tif"; lit "*.TIF"; lit "*.webp"; lit "*.WEBP" ].

Section CommandLine.

Variable w : World.

(** The triple (successes, failures, total). *)
Definition process_directory (dir_path : str) (show_progress auto_clean : bool)
  : nat * nat * nat :=
  if negb (isdir w dir_path) then (0, 0, 0)%nat
  else
    let all_files := flat_map (glob w dir_path) supported_patterns in
    match all_files with
    | [] => (0, 0, 0)%nat
    | _ :: _ =>
        let total := length all_files in
        let '(success_count, fail_count) :=
          fold_left (fun '(success_count, fail_count) file_path =>
                       if process_single_file w file_path show_progress auto_clean
                       then (S success_count, fail_count)
                       else (success_count, S fail_count))
                    all_files (0, 0)%nat in
        (success_count, fail_count, total)
    end.

(** [main], from the parsed arguments to the status passed to [sys.exit],
    [process_single_file] being total here; the handlers of an interrupt
    (130) and of an unexpected exception (1) are those of
    [main_with_handlers] below. *)
Definition main (args : Args) : Z :=
  let show_progress := negb (quiet args) in
  let auto_clean := clean args in
  if directory args then
    let '(success, fail, total) :=
      process_directory (path args) show_progress auto_clean in
    if Nat.eqb fail 0 then 0%Z else 1%Z
  else if isfile w (path args) then
    let success := process_single_file w (path args) show_progress auto_clean in
    if success then 0%Z else 1%Z
  else if isdir w (path args) then 1%Z
  else 1%Z.

End CommandLine.

(** *** The command line, with the calls that do not return *)

(** What ends a call of [process_single_file] that does not return: the
    interrupt of the user, or an exception of the class [Exception]. *)
Inductive raised := KeyboardInterrupt | OtherException.

(** The world of the command line when the processing of a file can
    raise. *)
Record RaisingWorld := mkRaisingWorld
  { r_isdir : str -> bool
  ; r_isfile : str -> bool
  ; r_glob : str -> str -> list str
  ; r_process_single_file : str -> bool -> bool -> raised + bool }.

Section Handlers.

Variable w : RaisingWorld.

(** The loop of [process_directory] over the files: a call that raises
    ends the loop, and the function. *)
Fixpoint directory_loop (show_progress auto_clean : bool) (files : list str)
         (success_count fail_count : nat) : raised + (nat * nat) :=
  match files with
  | [] => inr (success_count, fail_count)
  | file_path :: rest =>
      match r_process_single_file w file_path show_progress auto_clean with
      | inl e => inl e
      | inr success =>
          if success
          then directory_loop show_progress auto_clean rest
                              (S success_count) fail_count
          else directory_loop show_progress auto_clean rest
                              success_count (S fail_count)
      end
  end.

Definition process_directory_raising (dir_path : str)
           (show_progress auto_clean : bool) : raised + (nat * nat * nat) :=
  if negb (r_isdir w dir_path) then inr (0, 0, 0)%nat
  else
    let all_files := flat_map (r_glob w dir_path) supported_patterns in
    match all_files with
    | [] => inr (0, 0, 0)%nat
    | _ :: _ =>
        let total := length all_files in
        match directory_loop show_progress auto_clean all_files 0 0 with
        | inl e => inl e
        | inr (success_count, fail_count) =>
            inr (success_count, fail_count, total)
        end
    end.

(** The [try] block of [main]: the status passed to [sys.exit], or what is
    raised before. *)
Definition main_try (args : Args) : raised + Z :=
  let show_progress := negb (quiet args) in
  let auto_clean := clean args in
  if directory args then
    match process_directory_raising (path args) show_progress auto_clean with
    | inl e => inl e
    | inr (success, fail, total) => inr (if Nat.eqb fail 0 then 0%Z else 1%Z)
    end
  else if r_isfile w (path args) then
    match r_process_single_file w (path args) show_progress auto_clean with
    | inl e => inl e
    | inr success => inr (if success then 0%Z else 1%Z)
    end
  else if r_isdir w (path args) then inr 1%Z
  else inr 1%Z.

(** [main] with its two handlers: the exit status of the process. *)
Definition main_with_handlers (args : Args) : Z :=
  match main_try args with
  | inr status => status
  | inl KeyboardInterrupt => 130%Z
  | inl OtherException => 1%Z
  end.

End Handlers.

End Ocr.

(** * Vocabulary of the properties *)

Module Spec.

Import Cleaner Ocr.

(** A string without whitespace. *)
Definition no_space (s : str) : Prop := Forall (fun c => isspace c = false) s.

(** What the eight replacements of [normalize_text] do to one character. *)
Definition to_full_width (c : char) : char :=
  fold_left (fun c hf => if char_eqb c (fst hf) then snd hf else c)
            punctuation_map c.

(** A paragraph of at least [min_length] characters. *)
Definition long_enough (min_length : Z) (p : str) : Prop :=
  (min_length <= Z.of_nat (length p))%Z.

(** The flush of the last buffer, after the loop of [split_into_paragraphs]. *)
Definition flush (min_length : Z) (st : list str * str) : list str :=
  if Z.leb min_length (Z.of_nat (length (snd st)))
  then fst st ++ [snd st] else fst st.

(** The ASCII part of the Unicode tables, to run the functions on ASCII
    inputs. *)
Definition ascii_isdigit (c : char) : bool := in_range 48 57 c.

Definition ascii_isalnum (c : char) : bool :=
  (in_range 48 57 c || in_range 65 90 c || in_range 97 122 c)%bool.

(** *** The metadata of a file name, as the design document words it *)

Section MetadataSpec.

Variable unicode_isdigit : char -> bool.

(** Field 1 of at least 8 characters, the first 8 of them digits, read as
    YYYYMMDD and written YYYY-MM-DD; the empty string otherwise. *)
Definition date_of_field (f : str) : str :=
  if (Nat.leb 8 (length f) && forallb unicode_isdigit (firstn 8 f))%bool
  then firstn 4 f ++ lit "-" ++ firstn 2 (skipn 4 f) ++ lit "-"
       ++ firstn 2 (skipn 6 f)
  else [].

(** The file name without its extension, cut at the underscores: field 0
    is the title, field 1 gives the date, the fields from 2 on joined with
    underscores are the page information; an absent field gives the empty
    string. *)
Definition extract_metadata_spec (filename : str) : Metadata :=
  let fields := split_on (char_eqb 95) (path_stem filename) in
  mkMetadata (nth 0 fields [])
             (match nth_error fields 1 with
              | Some f => date_of_field f
              | None => []
              end)
             (join (lit "_") (skipn 2 fields)).

End MetadataSpec.

(** *** Lines and runs *)

(** [l1] is a subsequence of [l2]: [l2] with some elements left out, the
    others in the same order. *)
Inductive Subseq {A : Type} : list A -> list A -> Prop :=
| Subseq_nil : Subseq [] []
| Subseq_keep : forall x l1 l2, Subseq l1 l2 -> Subseq (x :: l1) (x :: l2)
| Subseq_drop : forall x l1 l2, Subseq l1 l2 -> Subseq l1 (x :: l2).

(** All the characters of [s] are in the class [cls]. *)
Definition all_in (cls : char -> bool) (s : str) : Prop :=
  Forall (fun c => cls c = true) s.

(** [s] contains [n] or more consecutive characters of the class [cls]. *)
Definition has_run (cls : char -> bool) (n : nat) (s : str) : Prop :=
  exists pre run post,
    s = pre ++ run ++ post /\ (n <= length run)%nat /\ all_in cls run.

(** [s] begins with [n] or more characters of the class [cls]. *)
Definition starts_run (cls : char -> bool) (n : nat) (s : str) : Prop :=
  exists run post, s = run ++ post /\ (n <= length run)%nat /\ all_in cls run.

(** The noise symbols as the design document lists them: exclamation mark,
    at sign, hash, percent, caret, ampersand, asterisk, parentheses,
    underscore, plus, equals, braces, brackets, pipe, backslash, colon,
    semicolon, quote marks, angle brackets, comma, question mark, slash. *)
Definition listed_noise_symbols : list char :=
  [33; 64; 35; 37; 94; 38; 42; 40; 41; 95; 43; 61; 123; 125; 91; 93;
   124; 92; 58; 59; 34; 39; 60; 62; 44; 63; 47].

Definition listed_noise (c : char) : bool :=
  existsb (char_eqb c) listed_noise_symbols.

(** The lines of a text: [text.split] at the line feeds. *)
Definition lines_of (text : str) : list str := split_on (char_eqb 10) text.

Section FilterSpec.

Variable unicode_isalnum : char -> bool.

(** The decision [filter_step] takes on a line. *)
Definition keep_line (line : str) : bool :=
  if blank line then true
  else if Nat.eqb (length line) 0 then true
  else if Qlt_bool (normal_ratio unicode_isalnum line) (4 # 10) then false
  else if re_search_run noise 10 0 line then false
  else true.

(** The characters the filter counts as normal, listed: the CJK ideographs
    U+4E00 to U+9FFF, the letters and digits of any script, the underscore,
    whitespace, the CJK punctuation U+3000 to U+303F, the full-width forms
    U+FF00 to U+FFEF, and the half-width marks backslash, slash, colon,
    dot, comma, exclamation mark, question mark, semicolon, double quote,
    quote, parentheses, brackets, braces, hyphen, plus, equals and angle
    brackets. *)
Definition counted_normal (c : char) : bool :=
  (N.leb 19968 c && N.leb c 40959)
  || unicode_isalnum c
  || N.eqb c 95
  || isspace c
  || (N.leb 12288 c && N.leb c 12351)
  || (N.leb 65280 c && N.leb c 65519)
  || existsb (N.eqb c)
       [92; 47; 58; 46; 44; 33; 63; 59; 34; 39; 40; 41; 91; 93; 123; 125;
        45; 43; 61; 60; 62].

End FilterSpec.

(** *** Slices of a page *)

(** The distance between the upper edges of two consecutive slices. *)
Definition stride : Z := (chunk_h - overlap)%Z.

(** The trace of the slicing loop entered at offset [y] on a page of height
    [page_h]: the last slice is the first one whose lower edge reaches the
    height of the page. *)
Inductive slices_from (page_h : Q) : Z -> list Rect -> Prop :=
| slices_last : forall y,
    (inject_Z y < page_h)%Q ->
    (page_h <= inject_Z (y + chunk_h))%Q ->
    slices_from page_h y [mkRect y (py_min (inject_Z (y + chunk_h)) page_h)]
| slices_next : forall y rest,
    (inject_Z y < page_h)%Q ->
    (inject_Z (y + chunk_h) < page_h)%Q ->
    slices_from page_h (y + stride) rest ->
    slices_from page_h y
      (mkRect y (py_min (inject_Z (y + chunk_h)) page_h) :: rest).

(** The vertical range of a clip contains [t]. *)
Definition in_clip (t : Q) (c : Rect) : Prop :=
  (inject_Z (y0 c) <= t /\ t < y1 c)%Q.

(** The clips cover the range from [lo] to [hi]. *)
Definition covers (clips : list Rect) (lo hi : Q) : Prop :=
  forall t, (lo <= t)%Q -> (t < hi)%Q -> exists c, In c clips /\ in_clip t c.

(** Each clip begins before the previous one ends. *)
Definition no_gap (clips : list Rect) : Prop :=
  forall i c d,
    nth_error clips i = Some c -> nth_error clips (S i) = Some d ->
    (inject_Z (y0 d) < y1 c)%Q.

(** The bound of the document on the number of slices of a page. *)
Definition slice_bound (page_h : Q) : nat :=
  Z.to_nat (Qceiling (page_h / inject_Z stride)).

(** *** Engines and worlds to run the driver and the command line on *)

(** An engine with the Chinese pack installed, which recognises the same
    text on every slice. *)
Definition stable_engine : Engine :=
  mkEngine (fun _ => Some [lit "chi_sim"; lit "eng"; lit "osd"])
           (fun _ _ _ => Some (lit "text")).

(** An engine whose Chinese pack is there at the first query and gone at
    the later ones. *)
Definition changing_engine : Engine :=
  mkEngine (fun k => match k with
                     | O => Some [lit "chi_sim"; lit "eng"]
                     | S _ => Some [lit "eng"]
                     end)
           (fun _ _ _ => Some (lit "text")).

(** A world in which no path is a directory. *)
Definition no_directory (isfile : str -> bool) (glob : str -> str -> list str)
                        (process_single_file : str -> bool -> bool -> bool)
  : World :=
  mkWorld (fun _ => false) isfile glob process_single_file.

(** *** Paragraphs as groups of sentences *)

(** The text of a group of sentences: each sentence followed by the
    full-width full stop. *)
Definition render (group : list str) : str :=
  concat (map (fun sentence => sentence ++ [12290]) group).

(** A group the loop of [split_into_paragraphs] can build: no sentence, one
    sentence of any length, or sentences whose text has at most 500
    characters. *)
Definition group_ok (group : list str) : Prop :=
  group = [] \/ (exists sentence, group = [sentence])
  \/ (length (render group) <= 500)%nat.

(** The test of [split_into_paragraphs] on a buffer. *)
Definition emitted (min_length : Z) (p : str) : bool :=
  Z.leb min_length (Z.of_nat (length p)).

(** *** The loop body run on a list of slices *)

(** The body of the slicing loop run on the clips in order, numbered from
    [slice_idx + 1]. *)
Fixpoint run_slices {St : Type} (body : nat -> Rect -> St -> St)
         (clips : list Rect) (slice_idx : nat) (st : St) : St :=
  match clips with
  | [] => st
  | clip_rect :: rest =>
      run_slices body rest (S slice_idx) (body (S slice_idx) clip_rect st)
  end.

(** *** The layout of the cleaned file *)

(** The six lines of the header, without their line feeds. *)
Definition header_lines (m : Metadata) (st : Stats) : list str :=
  [ [35; 32; 26631; 39064; 58; 32] ++ title m
  ; [35; 32; 26085; 26399; 58; 32] ++ date m
  ; [35; 32; 39029; 38754; 20449; 24687; 58; 32] ++ page_info m
  ; [35; 32; 21407; 22987; 38271; 24230; 58; 32]
    ++ decimal (Z.of_nat (original_length st)) ++ [32; 23383; 31526]
  ; [35; 32; 28165; 27927; 21518; 38271; 24230; 58; 32]
    ++ decimal (Z.of_nat (cleaned_length st)) ++ [32; 23383; 31526]
  ; [35; 32; 21387; 32553; 29575; 58; 32] ++ compression_ratio st ].

(** The content of a file that can be read, is not empty and whose cleaned
    file can be written. *)
Definition readable (file : BatchFile) : list str :=
  match file_content file with
  | Some (c :: x) => if output_written file then [c :: x] else []
  | _ => []
  end.

(** The profiles selected at the queries that returned, in the order of
    the queries: the query number [k] gives the profile selected from its
    answer, and nothing when it raised. *)
Definition profile_of_query (engine : Engine) (k : nat) : list str :=
  match get_languages engine k with
  | Some available_langs => [select_lang available_langs]
  | None => []
  end.

Definition profiles_follow (engine : Engine) (r : Run) : Prop :=
  langs_used r = flat_map (profile_of_query engine) (seq 0 (queries r)).

(** An engine without language list: every query raises. *)
Definition broken_engine : Engine :=
  mkEngine (fun _ => None) (fun _ _ _ => Some (lit "text")).

(** *** The allow-set as the design document words it *)

(** Script characters of the supported languages (the CJK ideographs),
    Latin letters, digits, whitespace, and the common punctuation in its
    half-width and full-width forms. *)
Definition worded_allow (c : char) : bool :=
  in_range 19968 40959 c
  || in_range 65 90 c || in_range 97 122 c
  || in_range 48 57 c
  || isspace c
  || existsb (char_eqb c) normal_punct
  || in_range 12288 12351 c
  || in_range 65280 65519 c.

(** A Unicode table that knows the ASCII and the Cyrillic letters. *)
Definition cyrillic_isalnum (c : char) : bool :=
  ascii_isalnum c || in_range 1024 1279 c.

(** What a number [n] of slices adds to a run, from [r] to [r']: [n]
    queries, at most [n] profiles, and exactly [n] when no query raises,
    and at most one text for each profile. *)
Definition run_added (engine : Engine) (n : nat) (r r' : Run) : Prop :=
  queries r' = (queries r + n)%nat
  /\ (length (langs_used r) <= length (langs_used r'))%nat
  /\ (length (langs_used r') <= length (langs_used r) + n)%nat
  /\ (length (full_content r) <= length (full_content r'))%nat
  /\ (length (full_content r') + length (langs_used r)
      <= length (full_content r) + length (langs_used r'))%nat
  /\ ((forall k, get_languages engine k <> None) ->
      length (langs_used r') = (length (langs_used r) + n)%nat).


(** *** Calls that return, and text that can be encoded *)

(** The world in which every call of [process_single_file] returns what it
    returns in [w]. *)
Definition returning (w : World) : RaisingWorld :=
  mkRaisingWorld (isdir w) (isfile w) (glob w)
                 (fun file_path show_progress auto_clean =>
                    inr (process_single_file w file_path show_progress
                                             auto_clean)).

(** The files of a directory before [file_path] are processed and return,
    and the processing of [file_path] is interrupted. *)
Definition interrupted_at (w : RaisingWorld) (show_progress auto_clean : bool)
           (files : list str) : Prop :=
  exists before file_path rest,
    files = before ++ file_path :: rest
    /\ Forall (fun f => exists success,
                   r_process_single_file w f show_progress auto_clean
                   = inr success) before
    /\ r_process_single_file w file_path show_progress auto_clean
       = inl KeyboardInterrupt.

(** A text the UTF-8 codec encodes; a text decoded from UTF-8 is one. *)
Definition encodable (s : str) : Prop :=
  Forall (fun c => utf8_encodable c = true) s.

End Spec.

(** * Properties *)

Import Cleaner Ocr Spec.

(** ** Whitespace and stripping *)

Lemma lstrip_length (s : str) : (length (lstrip s) <= length s)%nat.
Proof.
  induction s as [|c s IH]; simpl; [lia|].
  destruct (isspace c); simpl; lia.
Qed.

Lemma strip_length (s : str) : (length (strip s) <= length s)%nat.
Proof.
  unfold strip, rstrip.
  rewrite length_rev.
  etransitivity; [apply lstrip_length|].
  rewrite length_rev. apply lstrip_length.
Qed.

Lemma lstrip_no_space (s : str) : no_space s -> lstrip s = s.
Proof.
  intros H. destruct H as [|c s Hc _]; simpl; [reflexivity|].
  now rewrite Hc.
Qed.

Lemma strip_no_space (s : str) : no_space s -> strip s = s.
Proof.
  intros H. unfold strip, rstrip.
  rewrite (lstrip_no_space s H).
  rewrite lstrip_no_space; [apply rev_involutive|].
  unfold no_space. apply Forall_rev. exact H.
Qed.

Lemma re_sub_spaces_no_space (s : str) : no_space (re_sub_spaces s).
Proof.
  unfold no_space, re_sub_spaces. apply Forall_forall.
  intros c Hc. apply filter_In in Hc. destruct Hc as [_ Hc].
  now apply negb_true_iff in Hc.
Qed.

Lemma re_sub_spaces_id (s : str) : no_space s -> re_sub_spaces s = s.
Proof.
  unfold re_sub_spaces.
  induction 1 as [|c s Hc _ IH]; simpl; [reflexivity|].
  now rewrite Hc, IH.
Qed.

Lemma re_sub_spaces_length (s : str) : (length (re_sub_spaces s) <= length s)%nat.
Proof. apply filter_length_le. Qed.

(** ** normalize_text *)

Lemma replace_all_map (m : list (char * char)) (s : str) :
  fold_left (fun cleaned hf => replace (fst hf) (snd hf) cleaned) m s
  = map (fun c => fold_left
                    (fun c hf => if char_eqb c (fst hf) then snd hf else c) m c) s.
Proof.
  revert s. induction m as [|hf m IH]; intros s; simpl.
  - now rewrite map_id.
  - rewrite IH. unfold replace. now rewrite map_map.
Qed.

Lemma normalize_text_map (text : str) :
  normalize_text text = map to_full_width (re_sub_spaces (strip text)).
Proof. unfold normalize_text. apply replace_all_map. Qed.

(** A character is left alone or becomes one of the eight full-width marks. *)
Lemma to_full_width_cases (c : char) :
  to_full_width c = c \/ In (to_full_width c) (map snd punctuation_map).
Proof.
  unfold to_full_width, punctuation_map, char_eqb; simpl.
  destruct (N.eqb_spec c 44) as [->|?]; [right; vm_compute; tauto|].
  destruct (N.eqb_spec c 46) as [->|?]; [right; vm_compute; tauto|].
  destruct (N.eqb_spec c 33) as [->|?]; [right; vm_compute; tauto|].
  destruct (N.eqb_spec c 63) as [->|?]; [right; vm_compute; tauto|].
  destruct (N.eqb_spec c 58) as [->|?]; [right; vm_compute; tauto|].
  destruct (N.eqb_spec c 59) as [->|?]; [right; vm_compute; tauto|].
  destruct (N.eqb_spec c 40) as [->|?]; [right; vm_compute; tauto|].
  destruct (N.eqb_spec c 41) as [->|?]; [right; vm_compute; tauto|].
  now left.
Qed.

Lemma full_width_marks (P : char -> Prop) :
  Forall P (map snd punctuation_map) ->
  forall c, P c -> P (to_full_width c).
Proof.
  intros HP c Hc.
  destruct (to_full_width_cases c) as [->|Hin]; [exact Hc|].
  rewrite Forall_forall in HP. now apply HP.
Qed.

Lemma to_full_width_idem (c : char) :
  to_full_width (to_full_width c) = to_full_width c.
Proof.
  destruct (to_full_width_cases c) as [E|Hin]; [now rewrite !E|].
  revert Hin. generalize (to_full_width c). intros d Hd.
  simpl in Hd.
  repeat (destruct Hd as [<-|Hd]; [reflexivity|]). contradiction.
Qed.

Lemma to_full_width_no_space (c : char) :
  isspace c = false -> isspace (to_full_width c) = false.
Proof.
  apply full_width_marks with (P := fun c => isspace c = false).
  repeat constructor.
Qed.

Lemma normalize_text_no_space (x : str) : no_space (normalize_text x).
Proof.
  rewrite normalize_text_map. unfold no_space.
  apply Forall_map.
  eapply Forall_impl; [|apply re_sub_spaces_no_space].
  intros c. apply to_full_width_no_space.
Qed.

(** C5. [normalize_text] is idempotent: normalizing a normalized text gives
    the same text back.  The first pass leaves no whitespace, so that the
    second one strips and deletes nothing, and no half-width mark of the
    table, so that the second one replaces nothing. *)
Theorem normalize_text_idempotent (x : str) :
  normalize_text (normalize_text x) = normalize_text x.
Proof.
  rewrite (normalize_text_map (normalize_text x)).
  rewrite (strip_no_space _ (normalize_text_no_space x)).
  rewrite (re_sub_spaces_id _ (normalize_text_no_space x)).
  rewrite normalize_text_map, map_map.
  apply map_ext. intros c. apply to_full_width_idem.
Qed.

Lemma normalize_text_length (x : str) :
  (length (normalize_text x) <= length x)%nat.
Proof.
  rewrite normalize_text_map, length_map.
  etransitivity; [apply re_sub_spaces_length|apply strip_length].
Qed.

(** ** split_into_paragraphs *)

(** The invariant of the loop: what has been emitted is long enough. *)
Lemma para_step_emitted (min_length : Z) (st : list str * str) (sentence : str) :
  Forall (long_enough min_length) (fst st) ->
  Forall (long_enough min_length) (fst (para_step min_length st sentence)).
Proof.
  destruct st as [paragraphs current_para]; simpl. intros H.
  destruct (Nat.ltb _ 500); simpl; [exact H|].
  destruct (Z.leb_spec min_length (Z.of_nat (length current_para))); [|exact H].
  apply Forall_app. split; [exact H|]. now constructor.
Qed.

Lemma para_loop_emitted (min_length : Z) (sentences : list str) :
  forall st, Forall (long_enough min_length) (fst st) ->
  Forall (long_enough min_length)
         (fst (fold_left (para_step min_length) sentences st)).
Proof.
  induction sentences as [|s sentences IH]; intros st H; simpl; [exact H|].
  apply IH. now apply para_step_emitted.
Qed.

Lemma split_into_paragraphs_flush (text : str) (min_length : Z) :
  split_into_paragraphs text min_length
  = flush min_length
      (fold_left (para_step min_length) (split_into_sentences text) ([], [])).
Proof.
  unfold split_into_paragraphs, flush.
  now destruct (fold_left _ _ _) as [paragraphs current_para].
Qed.

(** C2. Every paragraph [split_into_paragraphs] returns has at least
    [min_length] characters, for every text and every [min_length].  A
    buffer shorter than [min_length] is not emitted: displaced by a pending
    sentence it is replaced by that sentence and the list of paragraphs is
    left as it was, and at the end of the input the list of paragraphs is
    returned without it. *)
Theorem paragraphs_at_least_min_length (text : str) (min_length : Z) :
  Forall (long_enough min_length) (split_into_paragraphs text min_length)
  /\ (forall paragraphs current_para sentence,
         (500 <= length current_para + length sentence)%nat ->
         (Z.of_nat (length current_para) < min_length)%Z ->
         para_step min_length (paragraphs, current_para) sentence
         = (paragraphs, sentence ++ [12290]))
  /\ (forall paragraphs current_para,
         fold_left (para_step min_length) (split_into_sentences text) ([], [])
         = (paragraphs, current_para) ->
         (Z.of_nat (length current_para) < min_length)%Z ->
         split_into_paragraphs text min_length = paragraphs).
Proof.
  split; [|split].
  - rewrite split_into_paragraphs_flush.
    pose proof (para_loop_emitted min_length (split_into_sentences text)
                  ([], []) (Forall_nil _)) as H.
    destruct (fold_left _ _ _) as [paragraphs current_para].
    unfold flush; simpl in *.
    destruct (Z.leb_spec min_length (Z.of_nat (length current_para))); [|exact H].
    apply Forall_app. split; [exact H|]. now constructor.
  - intros paragraphs current_para sentence Hlen Hshort. unfold para_step.
    destruct (Nat.ltb_spec (length current_para + length sentence) 500); [lia|].
    destruct (Z.leb_spec min_length (Z.of_nat (length current_para))); [lia|].
    reflexivity.
  - intros paragraphs current_para Hloop Hshort.
    rewrite split_into_paragraphs_flush, Hloop. unfold flush; simpl.
    destruct (Z.leb_spec min_length (Z.of_nat (length current_para))); [lia|].
    reflexivity.
Qed.

(** At the default [min_length] of 50: a buffer of 7 characters displaced by
    a sentence of 500, and a text whose only sentence is too short. *)
Lemma paragraphs_at_least_min_length_witness :
  Forall (long_enough 50) (split_into_paragraphs (lit "abcdefgh") 50)
  /\ para_step 50 ([], lit "abcdef" ++ [12290]) (repeat 97 500)
     = ([], repeat 97 500 ++ [12290])
  /\ split_into_paragraphs (lit "abcdefgh") 50 = [].
Proof.
  destruct (paragraphs_at_least_min_length (lit "abcdefgh") 50)
    as [Hall [Hstep Hflush]].
  split; [exact Hall|split].
  - apply Hstep; [apply Nat.leb_le|]; reflexivity.
  - apply (Hflush [] (lit "abcdefgh" ++ [12290])); reflexivity.
Defined.

(** ** extract_metadata_from_filename *)

Lemma split_on_not_nil (sep : char -> bool) (s : str) : split_on sep s <> [].
Proof.
  destruct s as [|c s]; simpl; [discriminate|].
  destruct (sep c); [discriminate|].
  destruct (split_on sep s); discriminate.
Qed.

Lemma str_isdigit_prefix (unicode_isdigit : char -> bool) (f : str) :
  (8 <= length f)%nat ->
  str_isdigit unicode_isdigit (firstn 8 f) = forallb unicode_isdigit (firstn 8 f).
Proof.
  intros H. unfold str_isdigit.
  rewrite length_firstn, Nat.min_l by exact H. reflexivity.
Qed.

(** The function never raises: it agrees with the wording of the document
    on every file name. *)
Lemma extract_metadata_total (unicode_isdigit : char -> bool) (filename : str) :
  extract_metadata_from_filename unicode_isdigit filename
  = ret (extract_metadata_spec unicode_isdigit filename).
Proof.
  unfold extract_metadata_from_filename, extract_metadata_spec.
  pose proof (split_on_not_nil (char_eqb 95) (path_stem filename)) as Hne.
  destruct (split_on (char_eqb 95) (path_stem filename)) as [|f0 [|f1 rest]];
    [contradiction| reflexivity |].
  assert (Hdate :
            (if (Nat.leb 8 (length f1)
                 && str_isdigit unicode_isdigit (firstn 8 f1))%bool
             then firstn 4 f1 ++ lit "-" ++ firstn 2 (skipn 4 f1) ++ lit "-"
                  ++ firstn 2 (skipn 6 f1)
             else []) = date_of_field unicode_isdigit f1).
  { unfold date_of_field.
    destruct (Nat.leb_spec 8 (length f1)) as [H8|H8]; [|reflexivity].
    now rewrite str_isdigit_prefix. }
  unfold bind, index, ret, raise. cbn [length nth_error nth skipn].
  change (Nat.leb 1 (S (S (length rest)))) with true.
  change (Nat.leb 2 (S (S (length rest)))) with true.
  cbv iota beta. rewrite <- Hdate.
  destruct (Nat.leb 8 (length f1) && _)%bool; destruct rest; reflexivity.
Qed.

(** C7. For every file name [extract_metadata_from_filename] returns, and
    never raises: field 0 of the name without extension, cut at the
    underscores, is the title; field 1, when it has at least 8 characters
    and the first 8 are digits, gives the date as YYYY-MM-DD, and the empty
    date otherwise; the fields from 2 on, joined with underscores, are the
    page information; absent fields give empty strings.  The two file names
    of the document give the records it states.  The ASCII digits are
    assumed to be digits of the Unicode table. *)
Theorem extract_metadata_correct
  (unicode_isdigit : char -> bool)
  (Hascii : forall c, in_range 48 57 c = true -> unicode_isdigit c = true) :
  (forall filename,
      extract_metadata_from_filename unicode_isdigit filename
      = ret (extract_metadata_spec unicode_isdigit filename))
  /\ extract_metadata_from_filename unicode_isdigit
       (lit "A_20251126102506_11_342.txt")
     = ret (mkMetadata (lit "A") (lit "2025-11-26") (lit "11_342"))
  /\ extract_metadata_from_filename unicode_isdigit (lit "justatitle.txt")
     = ret (mkMetadata (lit "justatitle") [] []).
Proof.
  split; [intros filename; apply extract_metadata_total|].
  rewrite !extract_metadata_total. split; [|reflexivity].
  unfold extract_metadata_spec.
  change (split_on (char_eqb 95) (path_stem (lit "A_20251126102506_11_342.txt")))
    with [lit "A"; lit "20251126102506"; lit "11"; lit "342"].
  cbn [nth nth_error skipn]. unfold date_of_field.
  change (firstn 8 (lit "20251126102506")) with (lit "20251126").
  cbn [forallb lit map String.list_ascii_of_string].
  rewrite !Hascii by reflexivity.
  reflexivity.
Qed.

Lemma extract_metadata_correct_witness :
  (forall c, in_range 48 57 c = true -> ascii_isdigit c = true)
  /\ extract_metadata_from_filename ascii_isdigit
       (lit "A_20251126102506_11_342.txt")
     = ret (mkMetadata (lit "A") (lit "2025-11-26") (lit "11_342")).
Proof.
  assert (H : forall c, in_range 48 57 c = true -> ascii_isdigit c = true)
    by (intros c Hc; exact Hc).
  split; [exact H|].
  exact (proj1 (proj2 (extract_metadata_correct ascii_isdigit H))).
Defined.

(** ** The size statistics of clean_ocr_text_file *)

Lemma true_div_nonzero (a b : nat) :
  b <> 0%nat ->
  true_div a b = ret (inject_Z (Z.of_nat a) / inject_Z (Z.of_nat b))%Q.
Proof. destruct b; [contradiction|reflexivity]. Qed.

Lemma ratio_value_nonzero (cleaned original : nat) :
  original <> 0%nat ->
  ratio_value cleaned original
  = ret ((1 - inject_Z (Z.of_nat cleaned) / inject_Z (Z.of_nat original)) * 100)%Q.
Proof.
  intros H. unfold ratio_value. now rewrite true_div_nonzero.
Qed.

Lemma quotient_le_1 (a b : nat) :
  (a <= b)%nat -> b <> 0%nat ->
  (inject_Z (Z.of_nat a) / inject_Z (Z.of_nat b) <= 1)%Q.
Proof.
  intros Hab Hb.
  apply Qle_shift_div_r.
  - change 0%Q with (inject_Z 0). rewrite <- Zlt_Qlt. lia.
  - rewrite Qmult_1_l. rewrite <- Zle_Qle. lia.
Qed.

Lemma clean_nonempty_file (unicode_isdigit : char -> bool) (name x : str) :
  x <> [] ->
  clean_ocr_text_file unicode_isdigit name (Some x)
  = ret (mkCleanResult
           (extract_metadata_spec unicode_isdigit name) x (normalize_text x)
           (split_into_sentences (normalize_text x))
           (split_into_paragraphs (normalize_text x) default_min_length)
           (mkStats (length x) (length (normalize_text x))
              (length (split_into_sentences (normalize_text x)))
              (length (split_into_paragraphs (normalize_text x) default_min_length))
              (format_2f
                 ((1 - inject_Z (Z.of_nat (length (normalize_text x)))
                       / inject_Z (Z.of_nat (length x))) * 100)%Q
               ++ lit "%"))).
Proof.
  intros Hx. unfold clean_ocr_text_file, compute_stats.
  rewrite extract_metadata_total.
  rewrite ratio_value_nonzero by (destruct x; [contradiction|discriminate]).
  reflexivity.
Qed.

(** C1. The statistics of an empty input file are not computed: the
    quotient of the two lengths is taken without a test on the divisor and
    [clean_ocr_text_file] raises ZeroDivisionError, whatever the name of the
    file.  For an original length of 100 and a cleaned length of 60 the
    ratio reported is 40.00%. *)
Theorem clean_empty_file_raises (unicode_isdigit : char -> bool) (name : str) :
  clean_ocr_text_file unicode_isdigit name (Some []) = raise ZeroDivisionError
  /\ compute_stats (repeat 97 100) (repeat 97 60) [] []
     = ret (mkStats 100 60 0 0 (lit "40.00%")).
Proof.
  split.
  - unfold clean_ocr_text_file. rewrite extract_metadata_total. reflexivity.
  - vm_compute. reflexivity.
Qed.

(** A decimal numeral begins with a digit. *)
Lemma decimal_head (n : Z) :
  exists d rest, decimal n = d :: rest /\ in_range 48 57 d = true.
Proof.
  unfold decimal. destruct (N.to_uint (Z.to_N n)); simpl;
    repeat eexists; reflexivity.
Qed.

(** The text of a value that is not negative has no minus sign. *)
Lemma format_2f_nonneg (v : Q) :
  (0 <= v)%Q -> hd_error (format_2f v) <> Some 45.
Proof.
  intros Hv. unfold format_2f.
  apply Qle_bool_iff in Hv. rewrite Hv.
  destruct (decimal_head (round_half_even (Qabs v * 100) / 100))
    as (d & rest & -> & Hd).
  simpl. intros E. injection E as ->. discriminate Hd.
Qed.

(** C9. [normalize_text] never lengthens a text: deleting whitespace only
    removes characters and each replacement puts one character for one.
    Hence, when [clean_ocr_text_file] reports statistics (the input is not
    empty), the cleaned length is at most the original length, the value
    formatted as compression ratio is not negative and its text does not
    begin with a minus sign. *)
Theorem normalize_text_never_longer
  (unicode_isdigit : char -> bool) (name x : str) :
  (length (normalize_text x) <= length x)%nat
  /\ (x <> [] ->
      exists res v,
        clean_ocr_text_file unicode_isdigit name (Some x) = ret res
        /\ (cleaned_length (stats res) <= original_length (stats res))%nat
        /\ ratio_value (cleaned_length (stats res)) (original_length (stats res))
           = ret v
        /\ (0 <= v)%Q
        /\ compression_ratio (stats res) = format_2f v ++ lit "%"
        /\ hd_error (compression_ratio (stats res)) <> Some 45).
Proof.
  split; [apply normalize_text_length|].
  intros Hx.
  assert (Hlen : length x <> 0%nat) by (destruct x; [contradiction|discriminate]).
  eexists. eexists.
  split; [apply clean_nonempty_file; exact Hx|]. cbn [stats cleaned_length
    original_length compression_ratio].
  split; [apply normalize_text_length|].
  split; [apply ratio_value_nonzero; exact Hlen|].
  pose proof (quotient_le_1 (length (normalize_text x)) (length x)
                (normalize_text_length x) Hlen) as Hq.
  set (q := (inject_Z (Z.of_nat (length (normalize_text x)))
             / inject_Z (Z.of_nat (length x)))%Q) in *.
  assert (Hv : (0 <= (1 - q) * 100)%Q) by lra.
  split; [exact Hv|]. split; [reflexivity|].
  pose proof (format_2f_nonneg _ Hv) as Hsign.
  destruct (format_2f ((1 - q) * 100)); [discriminate|exact Hsign].
Qed.

Lemma normalize_text_never_longer_witness :
  exists res v,
    clean_ocr_text_file ascii_isdigit (lit "a_b.txt") (Some (lit "a, b.")) = ret res
    /\ (cleaned_length (stats res) <= original_length (stats res))%nat
    /\ ratio_value (cleaned_length (stats res)) (original_length (stats res))
       = ret v
    /\ (0 <= v)%Q
    /\ compression_ratio (stats res) = format_2f v ++ lit "%"
    /\ hd_error (compression_ratio (stats res)) <> Some 45.
Proof.
  apply (proj2 (normalize_text_never_longer ascii_isdigit (lit "a_b.txt")
                  (lit "a, b."))).
  discriminate.
Defined.

(** ** Runs of characters of a class *)

Lemma starts_run_has_run (cls : char -> bool) (n : nat) (s : str) :
  starts_run cls n s -> has_run cls n s.
Proof.
  intros (run & post & E & Hn & Hall). now exists [], run, post.
Qed.

Lemma has_run_cons (cls : char -> bool) (n : nat) (c : char) (s : str) :
  has_run cls n s -> has_run cls n (c :: s).
Proof.
  intros (pre & run & post & E & Hn & Hall).
  exists (c :: pre), run, post. subst s. now repeat split.
Qed.

Lemma starts_run_cons (cls : char -> bool) (n : nat) (c : char) (s : str) :
  cls c = true -> starts_run cls n s -> starts_run cls (S n) (c :: s).
Proof.
  intros Hc (run & post & E & Hn & Hall).
  exists (c :: run), post. subst s. repeat split; simpl; [lia|].
  now constructor.
Qed.

(** A long enough run at the head of [c :: s] goes on in [s]. *)
Lemma starts_run_tail (cls : char -> bool) (n : nat) (c : char) (s : str) :
  starts_run cls (S n) (c :: s) -> cls c = true /\ starts_run cls n s.
Proof.
  intros (run & post & E & Hn & Hall).
  destruct run as [|d run]; simpl in *; [lia|].
  injection E as -> ->. inversion Hall; subst.
  split; [assumption|]. exists run, post. repeat split; [lia|assumption].
Qed.

Lemma has_run_inv (cls : char -> bool) (n : nat) (c : char) (s : str) :
  (0 < n)%nat ->
  has_run cls n (c :: s) -> starts_run cls n (c :: s) \/ has_run cls n s.
Proof.
  intros Hn (pre & run & post & E & Hlen & Hall).
  destruct pre as [|d pre]; simpl in E.
  - left. now exists run, post.
  - right. injection E as -> ->. now exists pre, run, post.
Qed.

Lemma has_run_nil (cls : char -> bool) (n : nat) :
  (0 < n)%nat -> ~ has_run cls n [].
Proof.
  intros Hn (pre & run & post & E & Hlen & _).
  symmetry in E. apply app_eq_nil in E as [_ E]. apply app_eq_nil in E as [E _].
  subst run. simpl in Hlen. lia.
Qed.

(** The scan finds a run exactly when there is one: with [run] class
    characters just read, either the text goes on with the [n - run]
    missing ones, or it contains a whole run further on. *)
Lemma re_search_run_spec (cls : char -> bool) (n : nat) (s : str) :
  forall run, (run < n)%nat ->
  re_search_run cls n run s = true
  <-> starts_run cls (n - run) s \/ has_run cls n s.
Proof.
  induction s as [|c s IH]; intros run Hrun; simpl.
  - split; [discriminate|]. intros [H|H].
    + apply starts_run_has_run in H. exfalso. revert H. apply has_run_nil. lia.
    + exfalso. revert H. apply has_run_nil. lia.
  - destruct (cls c) eqn:Hc.
    + destruct (Nat.leb_spec n (S run)) as [Hle|Hgt].
      * split; [intros _|reflexivity]. left.
        exists [c], s. repeat split; simpl; [lia|]. now repeat constructor.
      * rewrite (IH (S run) Hgt). split.
        -- intros [H|H].
           ++ left. replace (n - run)%nat with (S (n - S run)) by lia.
              now apply starts_run_cons.
           ++ right. now apply has_run_cons.
        -- intros [H|H].
           ++ left. replace (n - run)%nat with (S (n - S run)) in H by lia.
              now apply starts_run_tail in H.
           ++ apply has_run_inv in H as [H|H]; [|now right|lia].
              left. replace n with (S (n - 1)) in H by lia.
              apply starts_run_tail in H as [_ (r & post & E & Hn & Hall)].
              exists r, post. repeat split; [assumption|lia|assumption].
    + assert (Hno : forall m, (0 < m)%nat -> ~ starts_run cls m (c :: s)).
      { intros m Hm H. replace m with (S (m - 1)) in H by lia.
        apply starts_run_tail in H as [H _]. congruence. }
      rewrite (IH 0%nat) by lia. rewrite Nat.sub_0_r. split.
      * intros [H|H]; right; apply has_run_cons;
          [now apply starts_run_has_run|assumption].
      * intros [H|H]; [exfalso; apply (Hno (n - run)%nat); [lia|assumption]|].
        apply has_run_inv in H as [H|H]; [|now right|lia].
        exfalso. apply (Hno n); [lia|assumption].
Qed.

(** [re.search] with the quantifier [{10,}] on a class. *)
Lemma re_search_run_has_run (cls : char -> bool) (n : nat) (s : str) :
  (0 < n)%nat ->
  re_search_run cls n 0 s = true <-> has_run cls n s.
Proof.
  intros Hn. rewrite re_search_run_spec by exact Hn. rewrite Nat.sub_0_r.
  split; [intros [H|H]; [now apply starts_run_has_run|assumption]|now right].
Qed.

Lemma has_run_mono (cls cls' : char -> bool) (n : nat) (s : str) :
  (forall c, cls c = true -> cls' c = true) ->
  has_run cls n s -> has_run cls' n s.
Proof.
  intros Hsub (pre & run & post & E & Hn & Hall).
  exists pre, run, post. repeat split; [assumption..|].
  eapply Forall_impl; [|exact Hall]. exact Hsub.
Qed.

Lemma listed_noise_is_noise (c : char) : listed_noise c = true -> noise c = true.
Proof.
  unfold listed_noise, noise. rewrite !existsb_exists.
  intros (d & Hin & Hd). exists d. split; [|exact Hd].
  simpl in Hin. simpl.
  repeat (destruct Hin as [<-|Hin]; [tauto|]). contradiction.
Qed.

(** ** Lines: splitting and joining *)

Lemma split_on_cons (sep : char -> bool) (c : char) (s : str) :
  split_on sep (c :: s)
  = if sep c then [] :: split_on sep s
    else (c :: hd [] (split_on sep s)) :: tl (split_on sep s).
Proof.
  simpl. destruct (sep c); [reflexivity|].
  pose proof (split_on_not_nil sep s).
  destruct (split_on sep s); [contradiction|reflexivity].
Qed.

(** No field contains a separator. *)
Lemma split_on_fields (sep : char -> bool) (s : str) :
  Forall (all_in (fun c => negb (sep c))) (split_on sep s).
Proof.
  induction s as [|c s IH]; [repeat constructor|].
  rewrite split_on_cons.
  pose proof (split_on_not_nil sep s) as Hne.
  destruct (split_on sep s) as [|f fs]; [contradiction|].
  inversion IH as [|? ? Hf Hfs]; subst.
  destruct (sep c) eqn:Hc; simpl.
  - constructor; [constructor|exact IH].
  - constructor; [|exact Hfs]. constructor; [now rewrite Hc|exact Hf].
Qed.

(** The characters of a field are characters of the text. *)
Lemma split_on_chars (sep : char -> bool) (s : str) :
  forall f c, In f (split_on sep s) -> In c f -> In c s.
Proof.
  induction s as [|a s IH]; intros f c Hf Hc.
  - destruct Hf as [<-|[]]. contradiction.
  - rewrite split_on_cons in Hf.
    pose proof (split_on_not_nil sep s) as Hne.
    destruct (split_on sep s) as [|g gs]; [contradiction|].
    destruct (sep a); simpl in Hf.
    + destruct Hf as [<-|Hf]; [contradiction|]. right. eapply IH; eassumption.
    + destruct Hf as [<-|Hf].
      * destruct Hc as [<-|Hc]; [now left|]. right.
        apply (IH g c); [now left|assumption].
      * right. apply (IH f c); [now right|assumption].
Qed.

Lemma split_on_app_sep (sep : char -> bool) (p : str) (d : char) (s : str) :
  all_in (fun c => negb (sep c)) p -> sep d = true ->
  split_on sep (p ++ d :: s) = p :: split_on sep s.
Proof.
  intros Hp Hd. induction Hp as [|c p Hc _ IH]; simpl.
  - now rewrite Hd.
  - apply negb_true_iff in Hc. rewrite Hc, IH. reflexivity.
Qed.

Lemma split_on_no_sep (sep : char -> bool) (p : str) :
  all_in (fun c => negb (sep c)) p -> split_on sep p = [p].
Proof.
  induction 1 as [|c p Hc _ IH]; simpl; [reflexivity|].
  apply negb_true_iff in Hc. now rewrite Hc, IH.
Qed.

(** Splitting a joined list of fields gives the fields back, when there is
    at least one field and no field contains the separator. *)
Lemma split_on_join (d : char) (fields : list str) :
  fields <> [] ->
  Forall (all_in (fun c => negb (char_eqb d c))) fields ->
  split_on (char_eqb d) (join [d] fields) = fields.
Proof.
  intros Hne Hall. induction Hall as [|f fields Hf Hfs IH]; [contradiction|].
  destruct fields as [|g fields].
  - simpl. now apply split_on_no_sep.
  - change (join [d] (f :: g :: fields)) with (f ++ d :: join [d] (g :: fields)).
    rewrite split_on_app_sep; [|exact Hf|apply N.eqb_refl].
    f_equal. apply IH. discriminate.
Qed.

(** Joining the fields of a text gives the text back. *)
Lemma join_split_on (d : char) (s : str) :
  join [d] (split_on (char_eqb d) s) = s.
Proof.
  induction s as [|c s IH]; [reflexivity|].
  rewrite split_on_cons.
  pose proof (split_on_not_nil (char_eqb d) s) as Hne.
  destruct (split_on (char_eqb d) s) as [|f fs]; [contradiction|].
  unfold char_eqb at 1. destruct (N.eqb_spec d c) as [->|Hcd].
  - simpl in *. now rewrite IH.
  - simpl in *. destruct fs; simpl in *; now rewrite <- IH.
Qed.

(** ** Blank strings *)

Lemma lstrip_nil (s : str) : lstrip s = [] <-> forallb isspace s = true.
Proof.
  induction s as [|c s IH]; simpl; [tauto|].
  destruct (isspace c); simpl; [exact IH|]. split; discriminate.
Qed.

Lemma lstrip_head (s : str) :
  lstrip s <> [] -> forallb isspace (lstrip s) = false.
Proof.
  induction s as [|c s IH]; simpl; [congruence|].
  destruct (isspace c) eqn:Hc; [exact IH|]. intros _. simpl. now rewrite Hc.
Qed.

Lemma forallb_rev (f : char -> bool) (s : str) :
  forallb f (rev s) = forallb f s.
Proof.
  induction s as [|c s IH]; [reflexivity|]. simpl.
  rewrite forallb_app, IH. simpl. rewrite andb_true_r. apply andb_comm.
Qed.

(** A string is blank exactly when all its characters are whitespace. *)
Lemma blank_forallb (s : str) : blank s = forallb isspace s.
Proof.
  unfold blank, strip, rstrip.
  destruct (forallb isspace s) eqn:Hs.
  - apply lstrip_nil in Hs. now rewrite Hs.
  - assert (Hl : lstrip s <> []) by (rewrite lstrip_nil; congruence).
    apply lstrip_head in Hl. rewrite <- forallb_rev in Hl.
    assert (Hr : lstrip (rev (lstrip s)) <> []) by (rewrite lstrip_nil; congruence).
    destruct (rev (lstrip (rev (lstrip s)))) eqn:E; [|reflexivity].
    apply (f_equal (@rev char)) in E. rewrite rev_involutive in E.
    contradiction.
Qed.

(** The lines of a blank text are blank. *)
Lemma blank_lines (text line : str) :
  blank text = true -> In line (lines_of text) -> blank line = true.
Proof.
  rewrite !blank_forallb, !forallb_forall. intros Ht Hl c Hc.
  apply Ht. eapply split_on_chars; eassumption.
Qed.

(** ** filter_garbled_text *)

Section FilterFacts.

Variable unicode_isalnum : char -> bool.

Lemma filter_step_keep (filtered_lines : list str) (line : str) :
  filter_step unicode_isalnum filtered_lines line
  = if keep_line unicode_isalnum line then filtered_lines ++ [line] else filtered_lines.
Proof.
  unfold filter_step, keep_line.
  destruct (blank line); [reflexivity|].
  destruct (Nat.eqb (length line) 0); [reflexivity|].
  destruct (Qlt_bool _ _); [reflexivity|].
  destruct (re_search_run noise 10 0 line); reflexivity.
Qed.

(** The loop over the lines keeps the lines [keep_line] accepts, in order. *)
Lemma filter_loop (lines : list str) :
  forall filtered_lines,
    fold_left (filter_step unicode_isalnum) lines filtered_lines
    = filtered_lines ++ filter (keep_line unicode_isalnum) lines.
Proof.
  induction lines as [|line lines IH]; intros acc; simpl.
  - now rewrite app_nil_r.
  - rewrite IH, filter_step_keep.
    destruct (keep_line unicode_isalnum line); [now rewrite <- app_assoc|reflexivity].
Qed.

Lemma filter_garbled_text_lines (text : str) :
  filter_garbled_text unicode_isalnum text
  = if blank text then text else join [10] (filter (keep_line unicode_isalnum) (lines_of text)).
Proof.
  unfold filter_garbled_text. destruct (blank text); [reflexivity|].
  now rewrite filter_loop.
Qed.

(** The lines of the output: the lines kept, or one empty line when no
    line is kept. *)
Lemma lines_of_filter_garbled_text (text : str) :
  blank text = false ->
  lines_of (filter_garbled_text unicode_isalnum text)
  = match filter (keep_line unicode_isalnum) (lines_of text) with
    | [] => [[]]
    | kept => kept
    end.
Proof.
  intros Hb. rewrite filter_garbled_text_lines, Hb.
  destruct (filter (keep_line unicode_isalnum) (lines_of text)) as [|l ls] eqn:E; [reflexivity|].
  unfold lines_of. apply split_on_join; [discriminate|].
  rewrite <- E. apply Forall_forall. intros f Hf.
  apply filter_In in Hf as [Hf _].
  pose proof (split_on_fields (char_eqb 10) text) as H.
  rewrite Forall_forall in H. now apply H.
Qed.

(** What [keep_line] has checked on a line that is not blank. *)
Lemma keep_line_sound (line : str) :
  keep_line unicode_isalnum line = true -> blank line = false ->
  (4 # 10 <= normal_ratio unicode_isalnum line)%Q /\ ~ has_run noise 10 line.
Proof.
  unfold keep_line. intros Hk Hb. rewrite Hb in Hk.
  destruct (Nat.eqb_spec (length line) 0) as [H0|_].
  { destruct line; [discriminate Hb|discriminate H0]. }
  destruct (Qlt_bool _ _) eqn:Hq; [discriminate|].
  destruct (re_search_run noise 10 0 line) eqn:Hr; [discriminate|].
  split.
  - unfold Qlt_bool in Hq. apply negb_false_iff in Hq.
    now apply Qle_bool_iff in Hq.
  - rewrite <- re_search_run_has_run by lia. congruence.
Qed.

Lemma keep_line_blank (line : str) : blank line = true -> keep_line unicode_isalnum line = true.
Proof. unfold keep_line. now intros ->. Qed.

End FilterFacts.

Lemma Subseq_refl {A : Type} (l : list A) : Subseq l l.
Proof. induction l; now constructor. Qed.

Lemma Subseq_filter {A : Type} (f : A -> bool) (l : list A) :
  Subseq (filter f l) l.
Proof.
  induction l as [|x l IH]; simpl; [constructor|].
  destruct (f x); now constructor.
Qed.

Lemma counted_normal_normal (unicode_isalnum : char -> bool) (c : char) :
  normal unicode_isalnum c = counted_normal unicode_isalnum c.
Proof.
  unfold normal, counted_normal, is_word, in_range, char_eqb, normal_punct.
  now rewrite <- !orb_assoc.
Qed.

(** A ratio of at least 0.4, on the two lengths. *)
Lemma ratio_at_least_two_fifths (n t : nat) :
  (4 # 10 <= inject_Z (Z.of_nat n) / inject_Z (Z.of_nat t))%Q ->
  t <> 0%nat -> (2 * t <= 5 * n)%nat.
Proof.
  intros Hq Ht. destruct t as [|t]; [contradiction|].
  unfold Qle, Qdiv, Qmult, Qinv, inject_Z in Hq.
  rewrite Nat2Z.inj_succ in Hq. unfold Z.succ in Hq.
  destruct (Z.of_nat t + 1)%Z as [|p|p] eqn:E; [lia| |lia].
  cbn [Qnum Qden] in Hq. rewrite !Pos2Z.inj_mul in Hq. lia.
Qed.

Lemma Subseq_filter_filter {A : Type} (f g : A -> bool) (l : list A) :
  (forall x, In x l -> f x = true -> g x = true) ->
  Subseq (filter f l) (filter g l).
Proof.
  induction l as [|x l IH]; intros H; simpl; [constructor|].
  assert (IH' : Subseq (filter f l) (filter g l))
    by (apply IH; intros y Hy; apply H; now right).
  destruct (f x) eqn:Hf.
  - rewrite (H x (or_introl eq_refl) Hf). now constructor.
  - destruct (g x); [now constructor|exact IH'].
Qed.

(** The claim C3 read with the allow-set of the document fails.  A line of
    nine underscores is kept by the filter, whatever the Unicode table:
    the underscore is a word character, and nine are no run of ten; none
    of its characters is in the allow-set of the document.  So is a line
    of Cyrillic letters, under a table that knows them. *)
Lemma worded_allow_set_counterexample :
  (In (lit "_________")
      (lines_of (filter_garbled_text ascii_isalnum (lit "_________")))
   /\ blank (lit "_________") = false
   /\ length (filter worded_allow (lit "_________")) = 0%nat
   /\ ~ (2 * length (lit "_________")
         <= 5 * length (filter worded_allow (lit "_________")))%nat)
  /\ (In [1087; 1088; 1080; 1074; 1077; 1090]
         (lines_of (filter_garbled_text cyrillic_isalnum
                      [1087; 1088; 1080; 1074; 1077; 1090]))
      /\ blank [1087; 1088; 1080; 1074; 1077; 1090] = false
      /\ length (filter worded_allow [1087; 1088; 1080; 1074; 1077; 1090])
         = 0%nat).
Proof.
  split; [split; [|split; [|split]]|split; [|split]];
    try reflexivity; try (vm_compute; now left).
  vm_compute. intros H. inversion H.
Qed.

(** C3, amended. Every line of the output of [filter_garbled_text] that is
    not blank has at least two fifths of its characters among those the
    filter counts as normal (the CJK ideographs, the letters and digits of
    any script, the underscore, whitespace, the CJK and full-width
    punctuation blocks and the listed half-width marks) and contains no
    run of 10 or more noise symbols, neither of the class of the function
    (which has the dollar sign) nor of the symbols the document lists.
    The blank lines of the input are lines of the output, all of them and
    in their order. *)
Theorem filter_garbled_text_retained_lines
  (unicode_isalnum : char -> bool) (text : str) :
  (forall line,
      In line (lines_of (filter_garbled_text unicode_isalnum text)) ->
      blank line = false ->
      (2 * length line
       <= 5 * length (filter (counted_normal unicode_isalnum) line))%nat
      /\ ~ has_run noise 10 line
      /\ ~ has_run listed_noise 10 line)
  /\ Subseq (filter blank (lines_of text))
            (lines_of (filter_garbled_text unicode_isalnum text))
  /\ (forall line,
         In line (lines_of text) -> blank line = true ->
         In line (lines_of (filter_garbled_text unicode_isalnum text))).
Proof.
  assert (Hsound : forall line,
             keep_line unicode_isalnum line = true -> blank line = false ->
             (2 * length line
              <= 5 * length (filter (counted_normal unicode_isalnum) line))%nat
             /\ ~ has_run noise 10 line /\ ~ has_run listed_noise 10 line).
  { intros line Hk Hnb.
    destruct (keep_line_sound _ _ Hk Hnb) as [Hratio Hrun].
    split; [|split; [exact Hrun|]].
    - unfold normal_ratio, normal_chars in Hratio.
      rewrite (filter_ext _ _ (counted_normal_normal unicode_isalnum)) in Hratio.
      apply ratio_at_least_two_fifths; [exact Hratio|].
      destruct line; [discriminate Hnb|discriminate].
    - intros H. apply Hrun. revert H. apply has_run_mono.
      exact listed_noise_is_noise. }
  destruct (blank text) eqn:Hb.
  - rewrite filter_garbled_text_lines, Hb. split; [|split].
    + intros line Hin Hnb. rewrite (blank_lines text line Hb Hin) in Hnb.
      discriminate.
    + apply Subseq_filter.
    + intros line Hin _. exact Hin.
  - rewrite (lines_of_filter_garbled_text _ _ Hb).
    assert (Hsub : Subseq (filter blank (lines_of text))
                     (filter (keep_line unicode_isalnum) (lines_of text)))
      by (apply Subseq_filter_filter; intros l _; apply keep_line_blank).
    split; [|split].
    + intros line Hin Hnb. apply Hsound; [|exact Hnb].
      destruct (filter (keep_line unicode_isalnum) (lines_of text)) as [|l ls] eqn:E.
      * destruct Hin as [<-|[]]. discriminate Hnb.
      * rewrite <- E in Hin. now apply filter_In in Hin.
    + destruct (filter (keep_line unicode_isalnum) (lines_of text));
        [|exact Hsub].
      apply Subseq_drop. exact Hsub.
    + intros line Hin Hblank.
      assert (Hf : In line (filter (keep_line unicode_isalnum) (lines_of text))).
      { apply filter_In. split; [exact Hin|now apply keep_line_blank]. }
      destruct (filter (keep_line unicode_isalnum) (lines_of text)); [contradiction|exact Hf].
Qed.

(** On the two lines [ok] and eleven at signs: the first one is kept. *)
Lemma filter_garbled_text_retained_lines_witness :
  (2 * length (lit "ok")
   <= 5 * length (filter (counted_normal ascii_isalnum) (lit "ok")))%nat
  /\ ~ has_run noise 10 (lit "ok")
  /\ ~ has_run listed_noise 10 (lit "ok").
Proof.
  apply (proj1 (filter_garbled_text_retained_lines ascii_isalnum
                  (lit "ok" ++ [10] ++ repeat 64 11))).
  - vm_compute. left. reflexivity.
  - reflexivity.
Defined.

(** C10. The output of [filter_garbled_text] is the join, with line feeds,
    of a subsequence of the lines of the input: the lines retained are
    lines of the input, unchanged and in their order.  They are the lines
    of the output, unless no line is retained, when the output is the
    empty string. *)
Theorem filter_garbled_text_subsequence
  (unicode_isalnum : char -> bool) (text : str) :
  exists retained,
    filter_garbled_text unicode_isalnum text = join [10] retained
    /\ Subseq retained (lines_of text)
    /\ (lines_of (filter_garbled_text unicode_isalnum text) = retained
        \/ (retained = [] /\ filter_garbled_text unicode_isalnum text = [])).
Proof.
  destruct (blank text) eqn:Hb.
  - exists (lines_of text). rewrite filter_garbled_text_lines, Hb.
    split; [symmetry; apply join_split_on|].
    split; [apply Subseq_refl|now left].
  - exists (filter (keep_line unicode_isalnum) (lines_of text)).
    rewrite (lines_of_filter_garbled_text _ _ Hb).
    rewrite filter_garbled_text_lines, Hb.
    split; [reflexivity|]. split; [apply Subseq_filter|].
    destruct (filter _ (lines_of text)); [now right|now left].
Qed.

(** ** The slicing loop *)

(** Linear arithmetic on rationals, the injected integers taken as
    unknowns. *)
Ltac q_abstract z :=
  lazymatch z with
  | Z0 => change (inject_Z z) with (0 # 1)%Q in *
  | Zpos ?p => change (inject_Z z) with (Zpos p # 1)%Q in *
  | Zneg ?p => change (inject_Z z) with (Zneg p # 1)%Q in *
  | _ => let q := fresh "q" in set (q := inject_Z z) in *; clearbody q
  end.

Ltac q_linear :=
  repeat match goal with
         | H : context [inject_Z ?z] |- _ => q_abstract z
         | |- context [inject_Z ?z] => q_abstract z
         end;
  lra.

Lemma Qlt_bool_iff (a b : Q) : Qlt_bool a b = true <-> (a < b)%Q.
Proof.
  unfold Qlt_bool. rewrite negb_true_iff.
  split.
  - intros H. apply Qnot_le_lt. intros Hle.
    apply Qle_bool_iff in Hle. congruence.
  - intros H. destruct (Qle_bool b a) eqn:E; [|reflexivity].
    apply Qle_bool_iff in E. exfalso. revert E. now apply Qlt_not_le.
Qed.

Lemma Qlt_bool_false (a b : Q) : Qlt_bool a b = false <-> (b <= a)%Q.
Proof.
  unfold Qlt_bool. rewrite negb_false_iff. apply Qle_bool_iff.
Qed.

Lemma py_min_spec (a b : Q) :
  ((b < a)%Q /\ py_min a b = b) \/ ((a <= b)%Q /\ py_min a b = a).
Proof.
  unfold py_min. destruct (Qlt_bool b a) eqn:E.
  - left. split; [now apply Qlt_bool_iff|reflexivity].
  - right. split; [now apply Qlt_bool_false|reflexivity].
Qed.

Lemma py_min_Qmin (a b : Q) : (py_min a b == Qmin a b)%Q.
Proof.
  destruct (py_min_spec a b) as [[H ->]|[H ->]].
  - symmetry. apply Q.min_r. now apply Qlt_le_weak.
  - symmetry. now apply Q.min_l.
Qed.

(** The test that leaves the loop: the lower edge of the clip has reached
    the height of the page. *)
Lemma break_test (page_h : Q) (y : Z) :
  Qle_bool page_h (py_min (inject_Z (y + chunk_h)) page_h) = true
  <-> (page_h <= inject_Z (y + chunk_h))%Q.
Proof.
  rewrite Qle_bool_iff.
  destruct (py_min_spec (inject_Z (y + chunk_h)) page_h) as [[H ->]|[H ->]].
  - split; intros _; [now apply Qlt_le_weak|apply Qle_refl].
  - tauto.
Qed.

Section LoopFacts.

Variable St : Type.
Variable body : nat -> Rect -> St -> St.
Variable page_h : Q.

(** More fuel does not change a result. *)
Lemma slice_loop_fuel (fuel : nat) :
  forall fuel' y slice_idx st st',
    slice_loop body page_h fuel y slice_idx st = Some st' ->
    (fuel <= fuel')%nat ->
    slice_loop body page_h fuel' y slice_idx st = Some st'.
Proof.
  induction fuel as [|fuel IH]; intros fuel' y idx st st' H Hle;
    [discriminate|].
  destruct fuel' as [|fuel']; [lia|].
  simpl in *.
  destruct (Qlt_bool (inject_Z y) page_h); [|exact H].
  destruct (Qle_bool page_h _); [exact H|].
  apply IH; [exact H|lia].
Qed.

(** The loop ends: [fuel + 1] iterations are enough for what is left of
    the page below [y] when it is at most [fuel + 1] strides. *)
Lemma slice_loop_terminates (fuel : nat) :
  forall y slice_idx st,
    (page_h - inject_Z y <= inject_Z (Z.of_nat (S fuel) * stride))%Q ->
    exists st', slice_loop body page_h (S fuel) y slice_idx st = Some st'.
Proof.
  induction fuel as [|fuel IH]; intros y idx st Hleft.
  - simpl. destruct (Qlt_bool (inject_Z y) page_h); [|now eexists].
    destruct (Qle_bool page_h _) eqn:Hb; [now eexists|].
    exfalso. apply not_true_iff_false in Hb. apply Hb. apply break_test.
    rewrite inject_Z_plus. change (inject_Z (Z.of_nat 1 * stride)) with 1400%Q in Hleft.
    change (inject_Z chunk_h) with 1500%Q. q_linear.
  - remember (S fuel) as f eqn:Ef. simpl.
    destruct (Qlt_bool (inject_Z y) page_h); [|now eexists].
    destruct (Qle_bool page_h _) eqn:Hb; [now eexists|].
    subst f. apply IH.
    rewrite inject_Z_plus.
    replace (Z.of_nat (S (S fuel)) * stride)%Z
      with (Z.of_nat (S fuel) * stride + stride)%Z in Hleft by lia.
    rewrite inject_Z_plus in Hleft.
    change (inject_Z (chunk_h - overlap)) with (inject_Z stride).
    change (inject_Z stride) with 1400%Q in *. q_linear.
Qed.

End LoopFacts.

(** The clips collected by the loop are the trace of the loop. *)
Lemma collect_trace (page_h : Q) (fuel : nat) :
  forall y slice_idx acc clips,
    slice_loop (fun _ clip_rect acc => acc ++ [clip_rect])
               page_h fuel y slice_idx acc = Some clips ->
    (inject_Z y < page_h)%Q ->
    exists tail, clips = acc ++ tail /\ slices_from page_h y tail.
Proof.
  induction fuel as [|fuel IH]; intros y idx acc clips H Hy; [discriminate|].
  simpl in H.
  apply Qlt_bool_iff in Hy as Hy'. rewrite Hy' in H.
  destruct (Qle_bool page_h _) eqn:Hb.
  - injection H as <-. eexists. split; [reflexivity|].
    apply slices_last; [exact Hy|now apply break_test].
  - assert (Hnext : (inject_Z (y + chunk_h) < page_h)%Q).
    { apply Qnot_le_lt. intros Hle. apply break_test in Hle. congruence. }
    apply IH in H as (tail & -> & Htail).
    + eexists. split; [now rewrite <- app_assoc|].
      now apply slices_next.
    + revert Hnext. rewrite !inject_Z_plus.
      change (inject_Z (chunk_h - overlap)) with 1400%Q.
      change (inject_Z chunk_h) with 1500%Q. q_linear.
Qed.

Section TraceFacts.

Variable page_h : Q.

(** In the trace, slice [i] begins [i] strides below the first one and is
    [chunk_h] high, cut at the height of the page. *)
Lemma slices_from_position (y : Z) (tail : list Rect) :
  slices_from page_h y tail ->
  forall i c, nth_error tail i = Some c ->
    y0 c = (y + Z.of_nat i * stride)%Z
    /\ y1 c = py_min (inject_Z (y0 c + chunk_h)) page_h.
Proof.
  induction 1 as [y Hy Hlast|y rest Hy Hnext Hrest IH]; intros i c Hc.
  - destruct i as [|[|i]]; simpl in Hc; [|discriminate..].
    injection Hc as <-. simpl. split; [lia|reflexivity].
  - destruct i as [|i]; simpl in Hc.
    + injection Hc as <-. simpl. split; [lia|reflexivity].
    + apply IH in Hc as [-> ->]. split; [lia|reflexivity].
Qed.

(** Only the last slice reaches the height of the page, and it ends there. *)
Lemma slices_from_stop (y : Z) (tail : list Rect) :
  slices_from page_h y tail ->
  forall i c, nth_error tail i = Some c ->
    ((S i < length tail)%nat -> (y1 c < page_h)%Q)
    /\ (S i = length tail -> (y1 c == page_h)%Q).
Proof.
  induction 1 as [y Hy Hlast|y rest Hy Hnext Hrest IH]; intros i c Hc.
  - destruct i as [|[|i]]; simpl in Hc; [|discriminate..].
    injection Hc as <-. simpl. split; [lia|]. intros _.
    destruct (py_min_spec (inject_Z (y + chunk_h)) page_h) as [[H ->]|[H ->]];
      [reflexivity|now apply Qle_antisym].
  - destruct i as [|i]; simpl in Hc.
    + injection Hc as <-. simpl. split.
      * intros _.
        destruct (py_min_spec (inject_Z (y + chunk_h)) page_h)
          as [[H ->]|[H ->]]; [|exact Hnext].
        exfalso. revert H. apply Qle_not_lt. now apply Qlt_le_weak.
      * intros E. inversion Hrest; subst; simpl in E; lia.
    + apply IH in Hc as [H1 H2]. simpl.
      split; intros E; [apply H1|apply H2]; lia.
Qed.

Lemma slices_from_head (y : Z) (tail : list Rect) :
  slices_from page_h y tail -> exists c rest, tail = c :: rest /\ y0 c = y.
Proof. intros H. inversion H; subst; now repeat eexists. Qed.

(** The slices cover the page from the first upper edge to its height. *)
Lemma slices_from_covers (y : Z) (tail : list Rect) :
  slices_from page_h y tail -> covers tail (inject_Z y) page_h.
Proof.
  induction 1 as [y Hy Hlast|y rest Hy Hnext Hrest IH]; intros t Hlo Hhi.
  - eexists. split; [now left|]. split; simpl; [exact Hlo|].
    destruct (py_min_spec (inject_Z (y + chunk_h)) page_h) as [[H ->]|[H ->]];
      [exact Hhi|].
    eapply Qlt_le_trans; [exact Hhi|exact Hlast].
  - destruct (Qlt_le_dec t (inject_Z (y + chunk_h))) as [Hin|Hout].
    + eexists. split; [now left|]. split; simpl; [exact Hlo|].
      destruct (py_min_spec (inject_Z (y + chunk_h)) page_h)
        as [[H ->]|[H ->]]; [exact Hhi|exact Hin].
    + destruct (IH t) as (c & Hc & Ht); [|exact Hhi|].
      * revert Hout. unfold stride. rewrite !inject_Z_plus.
        change (inject_Z (chunk_h - overlap)) with 1400%Q.
        change (inject_Z chunk_h) with 1500%Q. q_linear.
      * exists c. split; [now right|exact Ht].
Qed.

(** Consecutive slices overlap. *)
Lemma slices_from_no_gap (y : Z) (tail : list Rect) :
  slices_from page_h y tail -> no_gap tail.
Proof.
  induction 1 as [y Hy Hlast|y rest Hy Hnext Hrest IH]; intros i c d Hc Hd.
  - destruct i; simpl in Hd; [discriminate|destruct i; discriminate].
  - destruct i as [|i]; simpl in Hc, Hd.
    + injection Hc as <-. simpl.
      destruct (slices_from_head _ _ Hrest) as (e & rest' & -> & He).
      simpl in Hd. injection Hd as <-. rewrite He.
      destruct (py_min_spec (inject_Z (y + chunk_h)) page_h)
        as [[H ->]|[H ->]].
      * revert Hrest. intros Hrest. inversion Hrest; subst; assumption.
      * unfold stride. rewrite !inject_Z_plus.
        change (inject_Z (chunk_h - overlap)) with 1400%Q.
        change (inject_Z chunk_h) with 1500%Q. q_linear.
    + now apply (IH i c d).
Qed.

(** The upper edge of the last slice is on the page. *)
Lemma slices_from_count (y : Z) (tail : list Rect) :
  slices_from page_h y tail ->
  (inject_Z y + inject_Z (Z.of_nat (length tail) - 1) * inject_Z stride
   < page_h)%Q.
Proof.
  induction 1 as [y Hy Hlast|y rest Hy Hnext Hrest IH].
  - simpl. q_linear.
  - revert IH. cbn [length].
    replace (Z.of_nat (S (length rest)) - 1)%Z
      with ((Z.of_nat (length rest) - 1) + 1)%Z by lia.
    rewrite !inject_Z_plus. change (inject_Z stride) with 1400%Q.
    q_linear.
Qed.

End TraceFacts.

Lemma slice_bound_ceiling (page_h : Q) :
  (0 < page_h)%Q ->
  Z.of_nat (slice_bound page_h) = Qceiling (page_h / inject_Z stride)
  /\ (page_h <= inject_Z (Z.of_nat (slice_bound page_h)) * inject_Z stride)%Q.
Proof.
  intros Hpos. unfold slice_bound.
  pose proof (Qle_ceiling (page_h / inject_Z stride)) as Hceil.
  assert (Hdiv : (page_h == page_h / inject_Z stride * inject_Z stride)%Q)
    by (change (inject_Z stride) with 1400%Q; field).
  set (x := (page_h / inject_Z stride)%Q) in *.
  assert (Hc : (0 < Qceiling x)%Z).
  { rewrite Zlt_Qlt. change (inject_Z stride) with 1400%Q in Hdiv.
    change (inject_Z 0) with 0%Q. q_linear. }
  rewrite Z2Nat.id by lia. split; [reflexivity|].
  change (inject_Z stride) with 1400%Q in *. q_linear.
Qed.

(** C4. On a page of height [page_h > 0], with slices of height 1500 and
    an overlap of 100, the slicing loop ends, after at most the ceiling of
    [page_h / 1400] slices and at least one.  Slice number [i] (from 0) is
    the range from [y = 1400 i] to the minimum of [y + 1500] and [page_h];
    the lower edge of every slice but the last is above [page_h] and the
    last one reaches it.  Every height from 0 to [page_h] is in a slice,
    and each slice begins before the previous one ends. *)
Theorem page_slices_cover_page (page_h : Q) (Hpos : (0 < page_h)%Q) :
  chunk_h = 1500%Z /\ overlap = 100%Z /\
  exists clips,
    (forall fuel, (slice_bound page_h <= fuel)%nat ->
                  page_slices page_h fuel = Some clips)
    /\ (1 <= length clips <= slice_bound page_h)%nat
    /\ Z.of_nat (slice_bound page_h)
       = Qceiling (page_h / inject_Z (chunk_h - overlap))
    /\ (forall i c, nth_error clips i = Some c ->
          y0 c = (Z.of_nat i * (chunk_h - overlap))%Z
          /\ (y1 c == Qmin (inject_Z (y0 c + chunk_h)) page_h)%Q
          /\ ((S i < length clips)%nat -> (y1 c < page_h)%Q)
          /\ (S i = length clips -> (page_h <= y1 c)%Q))
    /\ covers clips 0 page_h
    /\ no_gap clips.
Proof.
  split; [reflexivity|]. split; [reflexivity|].
  destruct (slice_bound_ceiling page_h Hpos) as [Hceil Hbound].
  assert (Hy : (inject_Z 0 < page_h)%Q) by exact Hpos.
  assert (Hn : (1 <= slice_bound page_h)%nat).
  { destruct (slice_bound page_h); [|lia].
    exfalso. revert Hbound. change (inject_Z (Z.of_nat 0)) with 0%Q.
    change (inject_Z stride) with 1400%Q. lra. }
  destruct (slice_loop_terminates _
              (fun _ clip_rect acc => acc ++ [clip_rect]) page_h
              (slice_bound page_h - 1) 0%Z 0%nat [])
    as [clips Hclips].
  { replace (S (slice_bound page_h - 1)) with (slice_bound page_h) by lia.
    rewrite inject_Z_mult. revert Hbound. change (inject_Z 0) with 0%Q.
    q_linear. }
  replace (S (slice_bound page_h - 1)) with (slice_bound page_h) in Hclips by lia.
  destruct (collect_trace _ _ _ _ _ _ Hclips Hy) as (tail & E & Htrace).
  simpl in E. subst tail.
  exists clips. split; [|split; [|split; [|split; [|split]]]].
  - intros fuel Hfuel. unfold page_slices.
    eapply slice_loop_fuel; eassumption.
  - pose proof (slices_from_count _ _ _ Htrace) as Hcount.
    destruct (slices_from_head _ _ _ Htrace) as (c & rest & -> & _).
    split; [simpl; lia|].
    apply Nat2Z.inj_le.
    assert (Hlt : (Z.of_nat (length (c :: rest)) - 1
                   < Z.of_nat (slice_bound page_h))%Z); [|lia].
    rewrite Zlt_Qlt. revert Hcount Hbound. change (inject_Z 0) with 0%Q.
    change (inject_Z stride) with 1400%Q. q_linear.
  - exact Hceil.
  - intros i c Hc.
    destruct (slices_from_position _ _ _ Htrace i c Hc) as [Hy0 Hy1].
    destruct (slices_from_stop _ _ _ Htrace i c Hc) as [Hbefore Hlast].
    split; [rewrite Hy0; unfold stride; lia|].
    split; [rewrite Hy1; apply py_min_Qmin|].
    split; [exact Hbefore|].
    intros E. rewrite (Hlast E). apply Qle_refl.
  - exact (slices_from_covers _ _ _ Htrace).
  - exact (slices_from_no_gap _ _ _ Htrace).
Qed.

(** A page of height 2000 is cut into the two slices from 0 to 1500 and
    from 1400 to 2000. *)
Lemma page_slices_cover_page_witness :
  (0 < 2000)%Q /\
  exists clips,
    (forall fuel, (slice_bound 2000 <= fuel)%nat ->
                  page_slices 2000 fuel = Some clips)
    /\ (1 <= length clips <= slice_bound 2000)%nat
    /\ Z.of_nat (slice_bound 2000)
       = Qceiling (2000 / inject_Z (chunk_h - overlap))
    /\ (forall i c, nth_error clips i = Some c ->
          y0 c = (Z.of_nat i * (chunk_h - overlap))%Z
          /\ (y1 c == Qmin (inject_Z (y0 c + chunk_h)) 2000)%Q
          /\ ((S i < length clips)%nat -> (y1 c < 2000)%Q)
          /\ (S i = length clips -> (2000 <= y1 c)%Q))
    /\ covers clips 0 2000
    /\ no_gap clips.
Proof.
  split; [reflexivity|].
  apply (page_slices_cover_page 2000). reflexivity.
Defined.

(** ** The OCR driver and the command line *)

(** What every execution of the loop body preserves holds when the loop
    ends. *)
Lemma slice_loop_invariant (St : Type) (body : nat -> Rect -> St -> St)
      (page_h : Q) (P : St -> Prop) :
  (forall slice_idx clip_rect st, P st -> P (body slice_idx clip_rect st)) ->
  forall fuel y slice_idx st st',
    P st -> slice_loop body page_h fuel y slice_idx st = Some st' -> P st'.
Proof.
  intros Hbody. induction fuel as [|fuel IH]; intros y idx st st' Hst H;
    [discriminate|].
  simpl in H.
  destruct (Qlt_bool (inject_Z y) page_h);
    [|injection H as <-; exact Hst].
  destruct (Qle_bool page_h _).
  - injection H as <-. now apply Hbody.
  - eapply IH; [|exact H]. now apply Hbody.
Qed.

(** The driver asks the engine for its languages at every slice, and
    selects a profile at the queries that return. *)
Lemma one_query_per_slice (unicode_isalnum : char -> bool) (engine : Engine)
      (fuel : nat) (doc : list Q) :
  forall page_idx r r',
    (length (langs_used r) <= queries r)%nat ->
    ocr_pages unicode_isalnum engine fuel page_idx doc r = Some r' ->
    (length (langs_used r') <= queries r')%nat.
Proof.
  induction doc as [|page_h doc IH]; intros page_idx r r' Hr H; simpl in H.
  - now injection H as <-.
  - destruct (slice_loop _ page_h fuel 0 0 r) as [r1|] eqn:Hloop; [|discriminate].
    apply (IH (S page_idx) r1 r'); [|exact H].
    revert Hloop.
    apply slice_loop_invariant
      with (P := fun r => (length (langs_used r) <= queries r)%nat);
      [|exact Hr].
    intros idx clip st Hst. unfold ocr_slice.
    destruct (get_languages engine (queries st)) as [answer|];
      [|cbn [queries langs_used]; lia].
    destruct (image_to_string engine page_idx clip _) as [text|];
      [destruct (strip _)|];
      cbn [queries langs_used]; rewrite length_app; cbn [length]; lia.
Qed.

(** C8. The installed languages are asked of the engine at every slice,
    not once for the document: on a document of one page of height 2000,
    cut into two slices, the driver makes two queries; when the answer of
    the engine changes between them, the first slice is recognised with
    the profile chi_sim+eng and the second one with eng. *)
Theorem languages_queried_at_every_slice :
  (exists r text,
      ocr_pdf_with_tesseract ascii_isalnum stable_engine 2 [2000%Q]
      = Some (r, text)
      /\ queries r = 2%nat
      /\ langs_used r = [lit "chi_sim+eng"; lit "chi_sim+eng"])
  /\ (exists r text,
         ocr_pdf_with_tesseract ascii_isalnum changing_engine 2 [2000%Q]
         = Some (r, text)
         /\ queries r = 2%nat
         /\ langs_used r = [lit "chi_sim+eng"; lit "eng"]).
Proof.
  split; eexists; eexists; (split; [vm_compute; reflexivity|]);
    split; reflexivity.
Qed.

(** C6. In directory mode on a path that is not a directory,
    [process_directory] returns no success, no failure and no file, and
    [main] exits with the status 0: the test of [main] is on the number of
    failures only.  Without the directory flag the same path, when it is
    not a file either, exits with the status 1. *)
Theorem directory_mode_on_non_directory_exits_0
  (isfile : str -> bool) (glob : str -> str -> list str)
  (process_single_file : str -> bool -> bool -> bool)
  (p : str) (quiet clean : bool) :
  process_directory (no_directory isfile glob process_single_file)
                    p (negb quiet) clean = (0, 0, 0)%nat
  /\ main (no_directory isfile glob process_single_file)
          (mkArgs p true quiet clean) = 0%Z
  /\ main (no_directory (fun _ => false) glob process_single_file)
          (mkArgs p false quiet clean) = 1%Z.
Proof. repeat split. Qed.

(** * Further properties of the code *)

(** ** normalize_text: what it keeps and what it deletes *)

Lemma re_sub_spaces_lstrip (s : str) : re_sub_spaces (lstrip s) = re_sub_spaces s.
Proof.
  induction s as [|c s IH]; [reflexivity|]. simpl.
  destruct (isspace c) eqn:Hc; simpl; [exact IH|]. now rewrite Hc.
Qed.

Lemma re_sub_spaces_strip (s : str) : re_sub_spaces (strip s) = re_sub_spaces s.
Proof.
  unfold strip, rstrip, re_sub_spaces.
  rewrite filter_rev. fold (re_sub_spaces (lstrip (rev (lstrip s)))).
  rewrite re_sub_spaces_lstrip. unfold re_sub_spaces.
  rewrite filter_rev, rev_involutive.
  apply re_sub_spaces_lstrip.
Qed.

Lemma normalize_text_delete_map (x : str) :
  normalize_text x = map to_full_width (re_sub_spaces x).
Proof. now rewrite normalize_text_map, re_sub_spaces_strip. Qed.

Lemma to_full_width_not_half (c : char) :
  ~ In (to_full_width c) (map fst punctuation_map).
Proof.
  unfold to_full_width, punctuation_map, char_eqb; simpl.
  destruct (N.eqb_spec c 44) as [->|?]; [vm_compute; intuition discriminate|].
  destruct (N.eqb_spec c 46) as [->|?]; [vm_compute; intuition discriminate|].
  destruct (N.eqb_spec c 33) as [->|?]; [vm_compute; intuition discriminate|].
  destruct (N.eqb_spec c 63) as [->|?]; [vm_compute; intuition discriminate|].
  destruct (N.eqb_spec c 58) as [->|?]; [vm_compute; intuition discriminate|].
  destruct (N.eqb_spec c 59) as [->|?]; [vm_compute; intuition discriminate|].
  destruct (N.eqb_spec c 40) as [->|?]; [vm_compute; intuition discriminate|].
  destruct (N.eqb_spec c 41) as [->|?]; [vm_compute; intuition discriminate|].
  intuition congruence.
Qed.

(** X1. [normalize_text] deletes every whitespace character and replaces
    each remaining character on its own: the initial [strip] changes
    nothing, and the function distributes over concatenation, so that
    normalizing a text piece by piece gives the same result. *)
Theorem normalize_text_piecewise (a b : str) :
  normalize_text a = map to_full_width (re_sub_spaces a)
  /\ normalize_text (a ++ b) = normalize_text a ++ normalize_text b.
Proof.
  split; [apply normalize_text_delete_map|].
  rewrite !normalize_text_delete_map. unfold re_sub_spaces.
  now rewrite filter_app, map_app.
Qed.

(** X2. The text [normalize_text] returns contains no whitespace character
    and none of the eight half-width marks of the punctuation table. *)
Theorem normalize_text_alphabet (x : str) :
  Forall (fun c => isspace c = false /\ ~ In c (map fst punctuation_map))
         (normalize_text x).
Proof.
  rewrite normalize_text_delete_map. apply Forall_map.
  eapply Forall_impl; [|apply re_sub_spaces_no_space].
  intros c Hc. split; [now apply to_full_width_no_space|].
  apply to_full_width_not_half.
Qed.

(** X3. The characters [normalize_text] removes are exactly the whitespace
    characters of the input: the length of the result plus the number of
    whitespace characters is the length of the input.  The result is empty
    exactly when the input is blank. *)
Theorem normalize_text_length_exact (x : str) :
  (length (normalize_text x) + length (filter isspace x) = length x)%nat
  /\ (normalize_text x = [] <-> blank x = true).
Proof.
  rewrite normalize_text_delete_map, length_map. unfold re_sub_spaces. split.
  - rewrite Nat.add_comm. apply filter_length.
  - rewrite blank_forallb. split.
    + intros H. apply map_eq_nil in H.
      apply forallb_forall. intros c Hc.
      destruct (isspace c) eqn:E; [reflexivity|].
      assert (Hin : In c (filter (fun c => negb (isspace c)) x))
        by (apply filter_In; now rewrite E).
      rewrite H in Hin. contradiction.
    + intros H. rewrite forallb_forall in H.
      destruct (filter _ x) as [|c l] eqn:E; [reflexivity|].
      assert (Hin : In c (filter (fun c => negb (isspace c)) x))
        by (rewrite E; now left).
      apply filter_In in Hin as [Hin Hc]. rewrite (H c Hin) in Hc. discriminate.
Qed.

(** ** split_into_sentences *)

Lemma lstrip_lstrip (s : str) : lstrip (lstrip s) = lstrip s.
Proof.
  induction s as [|c s IH]; [reflexivity|]. simpl.
  destruct (isspace c) eqn:Hc; [exact IH|]. simpl. now rewrite Hc.
Qed.

Lemma lstrip_snoc (l : str) (c : char) :
  isspace c = false -> lstrip (l ++ [c]) = lstrip l ++ [c].
Proof.
  intros Hc. induction l as [|d l IH]; simpl; [now rewrite Hc|].
  destruct (isspace d); [exact IH|reflexivity].
Qed.

Lemma rstrip_cons (c : char) (t : str) :
  isspace c = false -> rstrip (c :: t) = c :: rstrip t.
Proof.
  intros Hc. unfold rstrip. simpl.
  rewrite lstrip_snoc by exact Hc. now rewrite rev_app_distr.
Qed.

Lemma rstrip_rstrip (s : str) : rstrip (rstrip s) = rstrip s.
Proof. unfold rstrip. now rewrite rev_involutive, lstrip_lstrip. Qed.

Lemma lstrip_rstrip_lstrip (s : str) :
  lstrip (rstrip (lstrip s)) = rstrip (lstrip s).
Proof.
  induction s as [|c s IH]; [reflexivity|]. simpl.
  destruct (isspace c) eqn:Hc; [exact IH|].
  rewrite rstrip_cons by exact Hc. simpl. now rewrite Hc.
Qed.

Lemma strip_strip (s : str) : strip (strip s) = strip s.
Proof.
  unfold strip. now rewrite lstrip_rstrip_lstrip, rstrip_rstrip.
Qed.

Lemma lstrip_incl (s : str) (c : char) : In c (lstrip s) -> In c s.
Proof.
  induction s as [|d s IH]; simpl; [tauto|].
  destruct (isspace d); [right; now apply IH|tauto].
Qed.

Lemma strip_incl (s : str) (c : char) : In c (strip s) -> In c s.
Proof.
  unfold strip, rstrip. intros H.
  apply in_rev, lstrip_incl, in_rev in H. now apply lstrip_incl.
Qed.

Lemma sentences_long (text : str) :
  Forall (fun s => (5 < length s)%nat) (split_into_sentences text).
Proof.
  unfold split_into_sentences. apply Forall_map, Forall_forall.
  intros f Hf. apply filter_In in Hf as [_ Hlen]. now apply Nat.ltb_lt.
Qed.

(** X4. Every sentence [split_into_sentences] returns has more than 5
    characters, neither begins nor ends with whitespace, and contains none
    of the four sentence terminators. *)
Theorem sentences_well_formed (text : str) :
  Forall (fun s => (5 < length s)%nat
                   /\ strip s = s
                   /\ Forall (fun c => sentence_end c = false) s)
         (split_into_sentences text).
Proof.
  unfold split_into_sentences. apply Forall_map, Forall_forall.
  intros f Hf. apply filter_In in Hf as [Hf Hlen].
  split; [now apply Nat.ltb_lt|]. split; [apply strip_strip|].
  apply Forall_forall. intros c Hc. apply strip_incl in Hc.
  pose proof (split_on_fields sentence_end text) as Hfields.
  rewrite Forall_forall in Hfields. specialize (Hfields f Hf).
  unfold all_in in Hfields. rewrite Forall_forall in Hfields.
  now apply negb_true_iff, Hfields.
Qed.

(** ** split_into_paragraphs: the groups of sentences *)

Lemma render_snoc (group : list str) (sentence : str) :
  render (group ++ [sentence]) = render group ++ sentence ++ [12290].
Proof.
  unfold render. rewrite map_app, concat_app. simpl.
  now rewrite app_nil_r.
Qed.

(** The state of the loop after the sentences [done]: the sentences are
    cut into the groups [gs] already displaced and the group [g] of the
    buffer. *)
Lemma para_loop_groups (min_length : Z) (sentences : list str) :
  forall done paragraphs current_para gs g,
    concat gs ++ g = done ->
    paragraphs = filter (emitted min_length) (map render gs) ->
    current_para = render g ->
    Forall group_ok (gs ++ [g]) ->
    exists gs' g',
      concat gs' ++ g' = done ++ sentences
      /\ fst (fold_left (para_step min_length) sentences
                        (paragraphs, current_para))
         = filter (emitted min_length) (map render gs')
      /\ snd (fold_left (para_step min_length) sentences
                        (paragraphs, current_para))
         = render g'
      /\ Forall group_ok (gs' ++ [g']).
Proof.
  induction sentences as [|s sentences IH];
    intros done paragraphs cur gs g Hdone Hpar Hcur Hok.
  - exists gs, g. rewrite app_nil_r. simpl. now repeat split.
  - simpl. replace (done ++ s :: sentences) with ((done ++ [s]) ++ sentences)
      by now rewrite <- app_assoc.
    destruct (Nat.ltb_spec (length cur + length s) 500) as [Hfit|Hfull].
    + apply (IH (done ++ [s]) paragraphs (cur ++ s ++ [12290]) gs (g ++ [s])).
      * now rewrite app_assoc, Hdone.
      * exact Hpar.
      * now rewrite render_snoc, Hcur.
      * apply Forall_app in Hok as [Hgs _].
        apply Forall_app. split; [exact Hgs|]. constructor; [|constructor].
        right. right. rewrite render_snoc, <- Hcur, !length_app. simpl. lia.
    + apply (IH (done ++ [s])
                (if emitted min_length cur then paragraphs ++ [cur] else paragraphs)
                (s ++ [12290]) (gs ++ [g]) [s]).
      * rewrite concat_app. simpl. now rewrite app_nil_r, Hdone.
      * rewrite map_app, filter_app. simpl. rewrite <- Hcur, <- Hpar.
        destruct (emitted min_length cur); [reflexivity|now rewrite app_nil_r].
      * unfold render. simpl. now rewrite app_nil_r.
      * apply Forall_app. split; [exact Hok|]. constructor; [|constructor].
        right. left. now exists s.
Qed.

Lemma flush_groups (min_length : Z) (st : list str * str)
      (gs : list (list str)) (g : list str) :
  fst st = filter (emitted min_length) (map render gs) ->
  snd st = render g ->
  flush min_length st = filter (emitted min_length) (map render (gs ++ [g])).
Proof.
  intros Hpar Hcur. unfold flush.
  rewrite Hpar, Hcur, map_app, filter_app. simpl.
  fold (emitted min_length (render g)).
  destruct (emitted min_length (render g));
    [reflexivity|now rewrite app_nil_r].
Qed.

Lemma paragraphs_groups (text : str) (min_length : Z) :
  exists groups,
    concat groups = split_into_sentences text
    /\ split_into_paragraphs text min_length
       = filter (emitted min_length) (map render groups)
    /\ Forall group_ok groups.
Proof.
  destruct (para_loop_groups min_length (split_into_sentences text)
              [] [] [] [] [] eq_refl eq_refl eq_refl)
    as (gs & g & Hcat & Hpar & Hcur & Hok).
  { repeat constructor. }
  exists (gs ++ [g]). split; [|split; [|exact Hok]].
  - rewrite concat_app. simpl. now rewrite app_nil_r.
  - rewrite split_into_paragraphs_flush. now apply flush_groups.
Qed.

(** X5. [split_into_paragraphs] cuts the list of sentences into groups of
    consecutive sentences, writes each group as its sentences each followed
    by a full-width full stop, and returns, in order, the texts that have
    at least [min_length] characters.  A group of two or more sentences has
    a text of at most 500 characters; a group of one sentence can be of any
    length. *)
Theorem paragraphs_are_sentence_groups (text : str) (min_length : Z) :
  exists groups,
    concat groups = split_into_sentences text
    /\ split_into_paragraphs text min_length
       = filter (fun p => Z.leb min_length (Z.of_nat (length p)))
                (map render groups)
    /\ Forall (fun group =>
                 group = [] \/ (exists sentence, group = [sentence])
                 \/ (length (render group) <= 500)%nat) groups.
Proof. exact (paragraphs_groups text min_length). Qed.

Lemma render_concat (groups : list (list str)) :
  concat (map render groups) = render (concat groups).
Proof.
  induction groups as [|g groups IH]; [reflexivity|].
  simpl. rewrite IH. unfold render. now rewrite map_app, concat_app.
Qed.

Lemma concat_filter_nonempty (keep : str -> bool) (ps : list str) :
  (forall p, In p ps -> keep p = false -> p = []) ->
  concat (filter keep ps) = concat ps.
Proof.
  induction ps as [|p ps IH]; intros H; [reflexivity|]. simpl.
  destruct (keep p) eqn:E; simpl.
  - rewrite IH; [reflexivity|]. intros q Hq. apply H. now right.
  - rewrite (H p (or_introl eq_refl) E). simpl.
    apply IH. intros q Hq. apply H. now right.
Qed.

(** X6. With [min_length] at most 7 no text is lost: the paragraphs put end
    to end are the sentences, each followed by a full-width full stop.  (A
    buffer that is not empty holds a sentence of more than 5 characters and
    its full stop, hence at least 7 characters.) *)
Theorem paragraphs_lossless_below_8 (text : str) (min_length : Z) :
  (min_length <= 7)%Z ->
  concat (split_into_paragraphs text min_length)
  = render (split_into_sentences text).
Proof.
  intros Hmin.
  destruct (paragraphs_groups text min_length) as (groups & Hcat & Hpar & _).
  rewrite Hpar, <- Hcat, <- render_concat.
  apply concat_filter_nonempty. intros p Hp Hshort.
  apply in_map_iff in Hp as (g & <- & Hg).
  destruct g as [|s g]; [reflexivity|]. exfalso.
  assert (Hs : In s (split_into_sentences text)).
  { rewrite <- Hcat. apply in_concat. exists (s :: g). split; [exact Hg|now left]. }
  pose proof (sentences_long text) as Hlong.
  rewrite Forall_forall in Hlong. specialize (Hlong s Hs).
  unfold emitted in Hshort. apply Z.leb_gt in Hshort.
  unfold render in Hshort. cbn [map concat] in Hshort.
  rewrite !length_app in Hshort. cbn [length] in Hshort.
  unfold str, char in *. lia.
Qed.

Lemma paragraphs_lossless_below_8_witness :
  concat (split_into_paragraphs (lit "abcdefgh") 7) = render [lit "abcdefgh"].
Proof.
  apply (paragraphs_lossless_below_8 (lit "abcdefgh") 7). discriminate.
Defined.

(** ** extract_metadata_from_filename: names that follow the convention *)

Lemma rfind_dot_none (i : Z) (e : str) :
  ~ In 46 e -> rfind_dot i e = (-1)%Z.
Proof.
  revert i. induction e as [|c e IH]; intros i H; [reflexivity|]. simpl.
  rewrite IH by (intros Hin; apply H; now right). simpl.
  unfold char_eqb. destruct (N.eqb_spec c 46) as [->|_]; [|reflexivity].
  exfalso. apply H. now left.
Qed.

(** The last dot of [a.e], when [e] has no dot, is the one in between. *)
Lemma rfind_dot_last (a e : str) :
  ~ In 46 e ->
  forall i, (0 <= i)%Z ->
  rfind_dot i (a ++ 46 :: e) = (i + Z.of_nat (length a))%Z.
Proof.
  intros He. induction a as [|c a IH]; intros i Hi.
  - simpl. rewrite rfind_dot_none by exact He. simpl. lia.
  - cbn [app rfind_dot length]. rewrite IH by lia.
    destruct (Z.eqb_spec (i + 1 + Z.of_nat (length a)) (-1)); lia.
Qed.

Lemma path_name_plain (s : str) :
  ~ In 47 s -> s <> [] -> s <> lit "." -> path_name s = s.
Proof.
  intros Hslash Hne Hdot. unfold path_name.
  rewrite split_on_no_sep.
  - destruct s as [|c s]; [contradiction|].
    cbn [filter length Nat.eqb orb].
    destruct (str_eqb (c :: s) (lit ".")) eqn:E; [|reflexivity].
    exfalso. apply Hdot. revert E. simpl. unfold char_eqb.
    destruct (N.eqb_spec c 46) as [->|]; [|discriminate].
    destruct s; [reflexivity|discriminate].
  - apply Forall_forall. intros c Hc. unfold char_eqb.
    destruct (N.eqb_spec 47 c) as [<-|]; [contradiction|reflexivity].
Qed.

(** The stem of [body.e]: the name without the extension. *)
Lemma path_stem_extension (body e : str) :
  ~ In 47 body -> ~ In 47 e -> ~ In 46 e -> body <> [] -> e <> [] ->
  path_stem (body ++ 46 :: e) = body.
Proof.
  intros Hb He Hdot Hbne Hene. unfold path_stem.
  rewrite path_name_plain.
  - rewrite rfind_dot_last by (exact Hdot || lia).
    rewrite length_app. cbn [length].
    destruct e as [|c e]; [contradiction|]. cbn [length].
    destruct body as [|b body]; [contradiction|]. cbn [length].
    replace (_ && _)%bool with true
      by (symmetry; apply andb_true_iff; split;
          [apply Z.ltb_lt|apply Z.ltb_lt]; lia).
    rewrite Z.add_0_l, Nat2Z.id.
    change (S (length body)) with (length (b :: body)).
    now rewrite firstn_app, Nat.sub_diag, firstn_all, app_nil_r.
  - intros H. apply in_app_or in H as [H|[H|H]];
      [now apply Hb|discriminate H|now apply He].
  - destruct body; [contradiction|discriminate].
  - destruct body as [|b [|b' body]]; [contradiction| |discriminate].
    destruct e; [contradiction|discriminate].
Qed.

Lemma not_in_all_in (d : char) (s : str) :
  ~ In d s -> all_in (fun c => negb (char_eqb d c)) s.
Proof.
  intros H. apply Forall_forall. intros c Hc. unfold char_eqb.
  destruct (N.eqb_spec d c) as [<-|]; [contradiction|reflexivity].
Qed.

(** X7. A file name [title_date_pages.ext] built by the convention is read
    back: when the title and the date field contain no underscore, the
    date field begins with 8 digits, the extension is not empty and has no
    dot, and no part contains a slash, the metadata are the title, the
    date as YYYY-MM-DD and the pages field, underscores included. *)
Theorem metadata_of_conventional_name
  (unicode_isdigit : char -> bool) (title' date_str pages ext : str) :
  ~ In 95 title' -> ~ In 95 date_str ->
  ~ In 47 (title' ++ date_str ++ pages ++ ext) ->
  ~ In 46 ext -> ext <> [] ->
  (8 <= length date_str)%nat ->
  forallb unicode_isdigit (firstn 8 date_str) = true ->
  extract_metadata_from_filename unicode_isdigit
    (title' ++ lit "_" ++ date_str ++ lit "_" ++ pages ++ lit "." ++ ext)
  = ret (mkMetadata title'
           (firstn 4 date_str ++ lit "-" ++ firstn 2 (skipn 4 date_str)
            ++ lit "-" ++ firstn 2 (skipn 6 date_str))
           pages).
Proof.
  intros Ht Hd Hslash Hdot Hext Hlen Hdigits.
  rewrite extract_metadata_total. unfold extract_metadata_spec.
  replace (title' ++ lit "_" ++ date_str ++ lit "_" ++ pages ++ lit "." ++ ext)
    with ((title' ++ 95 :: date_str ++ 95 :: pages) ++ 46 :: ext)
    by (change (lit "_") with [95]; change (lit ".") with [46];
        repeat (rewrite <- app_assoc; simpl); reflexivity).
  rewrite path_stem_extension; try assumption.
  - rewrite split_on_app_sep by (now apply not_in_all_in || reflexivity).
    rewrite split_on_app_sep by (now apply not_in_all_in || reflexivity).
    cbn [nth nth_error skipn]. f_equal. f_equal.
    + unfold date_of_field.
      apply Nat.leb_le in Hlen. now rewrite Hlen, Hdigits.
    + apply join_split_on.
  - intros H. apply Hslash.
    apply in_app_or in H as [H|[H|H]]; [| discriminate H |].
    + apply in_or_app. now left.
    + apply in_app_or in H as [H|[H|H]]; [| discriminate H |].
      * apply in_or_app. right. apply in_or_app. now left.
      * apply in_or_app. right. apply in_or_app. right.
        apply in_or_app. now left.
  - intros H. apply Hslash. do 3 (apply in_or_app; right). exact H.
  - destruct title'; discriminate.
Qed.

Lemma metadata_of_conventional_name_witness :
  extract_metadata_from_filename ascii_isdigit
    (lit "report" ++ lit "_" ++ lit "20240102030405" ++ lit "_" ++ lit "3_17"
     ++ lit "." ++ lit "txt")
  = ret (mkMetadata (lit "report") (lit "2024-01-02") (lit "3_17")).
Proof.
  apply (metadata_of_conventional_name ascii_isdigit (lit "report")
           (lit "20240102030405") (lit "3_17") (lit "txt"));
    try (vm_compute; intuition discriminate);
    try discriminate; try reflexivity.
  apply Nat.leb_le. reflexivity.
Defined.

(** ** extract_metadata_from_filename: the shape of the fields *)

Lemma path_name_no_slash (filename : str) : ~ In 47 (path_name filename).
Proof.
  unfold path_name.
  set (parts := filter _ _).
  assert (Hparts : Forall (fun p => ~ In 47 p) parts).
  { apply Forall_forall. intros p Hp. apply filter_In in Hp as [Hp _].
    pose proof (split_on_fields (char_eqb 47) filename) as H.
    rewrite Forall_forall in H. specialize (H p Hp).
    unfold all_in in H. rewrite Forall_forall in H.
    intros Hin. specialize (H 47 Hin). discriminate H. }
  clearbody parts. induction Hparts as [|p parts Hp _ IH]; [intros []|].
  destruct parts; [exact Hp|exact IH].
Qed.

Lemma path_stem_no_slash (filename : str) : ~ In 47 (path_stem filename).
Proof.
  unfold path_stem. destruct (_ && _)%bool; [|apply path_name_no_slash].
  intros H. apply (path_name_no_slash filename).
  rewrite <- (firstn_skipn (Z.to_nat (rfind_dot 0 (path_name filename)))).
  apply in_or_app. now left.
Qed.

Lemma join_chars (sep : str) (parts : list str) (c : char) :
  In c (join sep parts) -> In c sep \/ exists p, In p parts /\ In c p.
Proof.
  induction parts as [|p parts IH]; [intros []|].
  destruct parts as [|q parts].
  - simpl. intros H. right. exists p. split; [now left|exact H].
  - change (join sep (p :: q :: parts)) with (p ++ sep ++ join sep (q :: parts)).
    intros H. apply in_app_or in H as [H|H].
    + right. exists p. split; [now left|exact H].
    + apply in_app_or in H as [H|H]; [now left|].
      destruct (IH H) as [Hs|(r & Hr & Hc)]; [now left|].
      right. exists r. split; [now right|exact Hc].
Qed.

Lemma date_of_field_shape (unicode_isdigit : char -> bool) (f : str) :
  date_of_field unicode_isdigit f = []
  \/ (length (date_of_field unicode_isdigit f) = 10%nat
      /\ nth_error (date_of_field unicode_isdigit f) 4 = Some 45
      /\ nth_error (date_of_field unicode_isdigit f) 7 = Some 45).
Proof.
  unfold date_of_field.
  destruct (Nat.leb_spec 8 (length f)) as [H|H]; [|now left].
  destruct (forallb _ _); [|now left]. right.
  do 8 (destruct f as [|? f]; [simpl in H; lia|]).
  repeat split.
Qed.

(** X8. Whatever the file name, the title contains neither an underscore
    nor a slash, the page information contains no slash, and the date is
    empty or has the 10 characters of YYYY-MM-DD, with its two hyphens. *)
Theorem metadata_fields_shape (unicode_isdigit : char -> bool) (filename : str) :
  exists m,
    extract_metadata_from_filename unicode_isdigit filename = ret m
    /\ ~ In 95 (title m) /\ ~ In 47 (title m)
    /\ ~ In 47 (page_info m)
    /\ (date m = []
        \/ (length (date m) = 10%nat
            /\ nth_error (date m) 4 = Some 45
            /\ nth_error (date m) 7 = Some 45)).
Proof.
  eexists. split; [apply extract_metadata_total|].
  unfold extract_metadata_spec. cbn [title page_info date].
  pose proof (split_on_fields (char_eqb 95) (path_stem filename)) as Hfields.
  pose proof (split_on_chars (char_eqb 95) (path_stem filename)) as Hchars.
  pose proof (path_stem_no_slash filename) as Hslash.
  pose proof (split_on_not_nil (char_eqb 95) (path_stem filename)) as Hne.
  destruct (split_on (char_eqb 95) (path_stem filename)) as [|f0 fields];
    [contradiction|].
  inversion Hfields as [|? ? Hf0 _]; subst.
  cbn [nth]. split; [|split; [|split]].
  - intros H. unfold all_in in Hf0. rewrite Forall_forall in Hf0.
    specialize (Hf0 95 H). discriminate Hf0.
  - intros H. apply Hslash. apply (Hchars f0 47); [now left|exact H].
  - intros H. apply join_chars in H as [H|(p & Hp & H)].
    + simpl in H. destruct H as [H|[]]. discriminate H.
    + apply Hslash. apply (Hchars p 47); [|exact H].
      rewrite <- (firstn_skipn 2 (f0 :: fields)). apply in_or_app. now right.
  - destruct fields as [|f1 fields]; [now left|]. cbn [nth_error].
    apply date_of_field_shape.
Qed.

(** ** filter_garbled_text: what it keeps, and applying it again *)

Lemma filter_all_true {A : Type} (f : A -> bool) (l : list A) :
  (forall x, In x l -> f x = true) -> filter f l = l.
Proof.
  induction l as [|x l IH]; intros H; [reflexivity|]. simpl.
  rewrite (H x (or_introl eq_refl)). f_equal. apply IH.
  intros y Hy. apply H. now right.
Qed.

Lemma keep_line_complete (unicode_isalnum : char -> bool) (line : str) :
  blank line = true
  \/ ((4 # 10 <= normal_ratio unicode_isalnum line)%Q /\ ~ has_run noise 10 line) ->
  keep_line unicode_isalnum line = true.
Proof.
  intros [Hb|[Hratio Hrun]]; [now apply keep_line_blank|].
  unfold keep_line. destruct (blank line); [reflexivity|].
  destruct (Nat.eqb (length line) 0); [reflexivity|].
  assert (Hq : Qlt_bool (normal_ratio unicode_isalnum line) (4 # 10) = false)
    by now apply Qlt_bool_false.
  rewrite Hq.
  destruct (re_search_run noise 10 0 line) eqn:Hr; [|reflexivity].
  exfalso. apply Hrun. apply re_search_run_has_run; [lia|exact Hr].
Qed.

(** X9. [filter_garbled_text] drops a line only for one of its two
    reasons: a line of the input that is blank, or whose fraction of
    normal characters is at least 0.4 and which has no run of 10 noise
    symbols, is a line of the output.  A text all of whose lines are such
    is returned unchanged. *)
Theorem filter_garbled_text_keeps_clean_lines
  (unicode_isalnum : char -> bool) (text : str) :
  (forall line,
      In line (lines_of text) ->
      blank line = true
      \/ ((4 # 10 <= normal_ratio unicode_isalnum line)%Q
          /\ ~ has_run noise 10 line) ->
      In line (lines_of (filter_garbled_text unicode_isalnum text)))
  /\ ((forall line,
          In line (lines_of text) ->
          blank line = true
          \/ ((4 # 10 <= normal_ratio unicode_isalnum line)%Q
              /\ ~ has_run noise 10 line)) ->
      filter_garbled_text unicode_isalnum text = text).
Proof.
  split.
  - intros line Hin Hclean. apply keep_line_complete in Hclean.
    destruct (blank text) eqn:Hb.
    + now rewrite filter_garbled_text_lines, Hb.
    + rewrite (lines_of_filter_garbled_text _ _ Hb).
      assert (Hf : In line (filter (keep_line unicode_isalnum) (lines_of text)))
        by (apply filter_In; now split).
      destruct (filter _ (lines_of text)); [contradiction|exact Hf].
  - intros Hall. rewrite filter_garbled_text_lines.
    destruct (blank text); [reflexivity|].
    rewrite filter_all_true; [apply join_split_on|].
    intros line Hin. apply keep_line_complete. now apply Hall.
Qed.

Lemma filter_garbled_text_keeps_clean_lines_witness :
  filter_garbled_text ascii_isalnum (lit "page 1" ++ [10] ++ lit "total: 42")
  = lit "page 1" ++ [10] ++ lit "total: 42".
Proof.
  apply (proj2 (filter_garbled_text_keeps_clean_lines ascii_isalnum
                  (lit "page 1" ++ [10] ++ lit "total: 42"))).
  intros line [<-|[<-|[]]]; right; split;
    try (unfold Qle; simpl; lia);
    (intros H; apply re_search_run_has_run in H; [discriminate H|lia]).
Defined.

(** X10. [filter_garbled_text] is idempotent: applied to its own output it
    returns it unchanged. *)
Theorem filter_garbled_text_idempotent
  (unicode_isalnum : char -> bool) (text : str) :
  filter_garbled_text unicode_isalnum
    (filter_garbled_text unicode_isalnum text)
  = filter_garbled_text unicode_isalnum text.
Proof.
  destruct (blank text) eqn:Hb.
  - rewrite (filter_garbled_text_lines _ text), Hb.
    now rewrite filter_garbled_text_lines, Hb.
  - rewrite (filter_garbled_text_lines _ (filter_garbled_text _ text)).
    destruct (blank (filter_garbled_text unicode_isalnum text)) eqn:Hout;
      [reflexivity|].
    rewrite (lines_of_filter_garbled_text _ _ Hb).
    rewrite filter_garbled_text_lines, Hb in Hout |- *.
    destruct (filter (keep_line unicode_isalnum) (lines_of text))
      as [|l ls] eqn:E; [discriminate Hout|].
    rewrite <- E. f_equal. apply filter_all_true.
    intros line Hin. now apply filter_In in Hin.
Qed.

Lemma join_length_cons (sep : str) (p : str) (parts : list str) :
  length (join sep (p :: parts))
  = (length p + match parts with
                | [] => 0
                | _ :: _ => length sep + length (join sep parts)
                end)%nat.
Proof.
  destruct parts; simpl; [lia|]. now rewrite !length_app.
Qed.

Lemma join_length_subseq (sep : str) (l1 l2 : list str) :
  Subseq l1 l2 -> (length (join sep l1) <= length (join sep l2))%nat.
Proof.
  induction 1 as [|x l1 l2 Hsub IH|x l1 l2 Hsub IH]; [lia| |].
  - rewrite !join_length_cons.
    destruct l1 as [|a l1]; [lia|].
    destruct l2 as [|b l2]; [inversion Hsub|]. lia.
  - rewrite join_length_cons.
    destruct l2 as [|b l2]; [inversion Hsub; simpl; lia|]. lia.
Qed.

(** X11. [filter_garbled_text] never lengthens a text. *)
Theorem filter_garbled_text_never_longer
  (unicode_isalnum : char -> bool) (text : str) :
  (length (filter_garbled_text unicode_isalnum text) <= length text)%nat.
Proof.
  rewrite filter_garbled_text_lines.
  destruct (blank text); [lia|].
  rewrite <- (join_split_on 10 text) at 2.
  apply join_length_subseq, Subseq_filter.
Qed.

(** ** The slicing loop: the number and the heights of the slices *)

(** A page without height is not sliced. *)
Lemma page_slices_flat (page_h : Q) (fuel : nat) (clips : list Rect) :
  (page_h <= 0)%Q -> page_slices page_h fuel = Some clips -> clips = [].
Proof.
  intros Hh. destruct fuel as [|fuel]; [discriminate|].
  unfold page_slices. simpl.
  assert (E : Qlt_bool (inject_Z 0) page_h = false)
    by now apply Qlt_bool_false.
  rewrite E. now intros [= <-].
Qed.

Lemma page_slices_trace (page_h : Q) (fuel : nat) (clips : list Rect) :
  (0 < page_h)%Q -> page_slices page_h fuel = Some clips ->
  slices_from page_h 0 clips.
Proof.
  intros Hh H. unfold page_slices in H.
  apply collect_trace in H as (tail & -> & Htrace); [exact Htrace|exact Hh].
Qed.

(** The last slice is the first one to reach the height of the page. *)
Lemma slices_from_bounds (page_h : Q) (y : Z) (tail : list Rect) :
  slices_from page_h y tail ->
  (page_h <= inject_Z y + inject_Z (Z.of_nat (length tail) - 1) * 1400 + 1500)%Q
  /\ ((2 <= length tail)%nat ->
      (inject_Z y + inject_Z (Z.of_nat (length tail) - 2) * 1400 + 1500
       < page_h)%Q).
Proof.
  induction 1 as [y Hy Hlast|y rest Hy Hnext Hrest [IH1 IH2]].
  - split; [|simpl; lia]. revert Hlast. rewrite inject_Z_plus.
    change (inject_Z chunk_h) with 1500%Q. simpl. q_linear.
  - destruct (slices_from_head _ _ _ Hrest) as (c & rest' & -> & _).
    unfold stride in IH1, IH2. rewrite inject_Z_plus in IH1, IH2.
    change (inject_Z (chunk_h - overlap)) with 1400%Q in IH1, IH2.
    cbn [length] in *.
    replace (Z.of_nat (S (S (length rest'))) - 1)%Z
      with ((Z.of_nat (S (length rest')) - 1) + 1)%Z by lia.
    replace (Z.of_nat (S (S (length rest'))) - 2)%Z
      with (Z.of_nat (S (length rest')) - 1)%Z by lia.
    rewrite inject_Z_plus. split; [revert IH1; q_linear|].
    intros _. destruct rest' as [|d rest''].
    + revert Hnext. rewrite inject_Z_plus.
      change (inject_Z chunk_h) with 1500%Q. simpl. q_linear.
    + assert (H2 : (2 <= S (S (length rest'')))%nat) by lia.
      specialize (IH2 H2). revert IH2. cbn [length].
      replace (Z.of_nat (S (S (length rest''))) - 2)%Z
        with ((Z.of_nat (S (S (length rest''))) - 1) + -1)%Z by lia.
      rewrite (inject_Z_plus _ (-1)). q_linear.
Qed.

Lemma Qceiling_unique (x : Q) (n : Z) :
  (inject_Z (n - 1) < x)%Q -> (x <= inject_Z n)%Q -> Qceiling x = n.
Proof.
  intros Hlo Hhi.
  pose proof (Qle_ceiling x) as H1. pose proof (Qceiling_lt x) as H2.
  assert (n - 1 < Qceiling x)%Z
    by (rewrite Zlt_Qlt; eapply Qlt_le_trans; eassumption).
  assert (Qceiling x - 1 < n)%Z
    by (rewrite Zlt_Qlt; eapply Qlt_le_trans; eassumption).
  lia.
Qed.

(** Enough iterations for a page: the bound of its slices, and one at
    least. *)
Lemma page_loop_ends (St : Type) (body : nat -> Rect -> St -> St)
      (page_h : Q) (fuel : nat) (st : St) :
  (1 <= fuel)%nat -> (slice_bound page_h <= fuel)%nat ->
  exists st', slice_loop body page_h fuel 0 0 st = Some st'.
Proof.
  intros H1 Hb. destruct fuel as [|fuel]; [lia|].
  apply slice_loop_terminates.
  rewrite inject_Z_mult. change (inject_Z 0) with 0%Q.
  change (inject_Z stride) with 1400%Q.
  assert (Hf : (0 <= inject_Z (Z.of_nat (S fuel)))%Q)
    by (change 0%Q with (inject_Z 0); rewrite <- Zle_Qle; lia).
  destruct (Qlt_le_dec 0 page_h) as [Hpos|Hflat]; [|revert Hf Hflat; q_linear].
  destruct (slice_bound_ceiling page_h Hpos) as [_ Hbound].
  assert (Hle : (inject_Z (Z.of_nat (slice_bound page_h))
                 <= inject_Z (Z.of_nat (S fuel)))%Q)
    by (rewrite <- Zle_Qle; lia).
  change (inject_Z stride) with 1400%Q in Hbound.
  revert Hbound Hle. q_linear.
Qed.

(** The number of the clips the loop returns. *)
Lemma slice_count_of_result (page_h : Q) (fuel : nat) (clips : list Rect) :
  page_slices page_h fuel = Some clips ->
  length clips
  = if Qle_bool page_h 0 then 0%nat
    else Z.to_nat (Z.max 1 (Qceiling ((page_h - 100) / 1400))).
Proof.
  intros H. destruct (Qle_bool page_h 0) eqn:Hh.
  - apply Qle_bool_iff in Hh. now rewrite (page_slices_flat _ _ _ Hh H).
  - assert (Hpos : (0 < page_h)%Q).
    { apply Qnot_le_lt. intros Hle. apply Qle_bool_iff in Hle. congruence. }
    pose proof (page_slices_trace _ _ _ Hpos H) as Htrace.
    destruct (slices_from_bounds _ _ _ Htrace) as [Hup Hlow].
    destruct (slices_from_head _ _ _ Htrace) as (c & rest & -> & _).
    change (inject_Z 0) with 0%Q in Hup, Hlow.
    assert (Hdiv : (page_h - 100 == (page_h - 100) / 1400 * 1400)%Q) by field.
    set (x := ((page_h - 100) / 1400)%Q) in *.
    destruct rest as [|d rest].
    + assert (Hc : (Qceiling x <= 1)%Z).
      { pose proof (Qceiling_lt x) as Hlt.
        assert (Qceiling x - 1 < 1)%Z; [|lia].
        rewrite Zlt_Qlt. eapply Qlt_le_trans; [exact Hlt|].
        simpl in Hup. revert Hup Hdiv. q_linear. }
      rewrite Z.max_l by exact Hc. reflexivity.
    + assert (H2 : (2 <= length (c :: d :: rest))%nat) by (simpl; lia).
      specialize (Hlow H2).
      assert (Hc : Qceiling x = Z.of_nat (length (c :: d :: rest))).
      { apply Qceiling_unique.
        - replace (Z.of_nat (length (c :: d :: rest)) - 1)%Z
            with ((Z.of_nat (length (c :: d :: rest)) - 2) + 1)%Z by lia.
          rewrite inject_Z_plus. revert Hlow Hdiv. q_linear.
        - replace (Z.of_nat (length (c :: d :: rest)))
            with ((Z.of_nat (length (c :: d :: rest)) - 1) + 1)%Z at 1 by lia.
          rewrite inject_Z_plus. revert Hup Hdiv. q_linear. }
      rewrite Hc, Z.max_r by (simpl length; lia).
      now rewrite Nat2Z.id.
Qed.

(** X12. With at least one iteration allowed, and at least the ceiling of
    [page_h / 1400], the slicing loop returns, and the number of its
    slices, hence of recognition calls for the page, is: none for a page
    whose height is not positive, and otherwise the ceiling of
    [(page_h - 100) / 1400], and at least one. *)
Theorem slice_count_exact (page_h : Q) (fuel : nat) :
  (1 <= fuel)%nat -> (slice_bound page_h <= fuel)%nat ->
  exists clips,
    page_slices page_h fuel = Some clips
    /\ length clips
       = if Qle_bool page_h 0 then 0%nat
         else Z.to_nat (Z.max 1 (Qceiling ((page_h - 100) / 1400))).
Proof.
  intros H1 Hb.
  destruct (page_loop_ends _ (fun _ clip_rect acc => acc ++ [clip_rect])
              page_h fuel [] H1 Hb) as [clips Hclips].
  exists clips. split; [exact Hclips|].
  now apply (slice_count_of_result page_h fuel).
Qed.

Lemma slice_count_exact_witness :
  exists clips,
    page_slices 3000 3 = Some clips
    /\ length clips
       = if Qle_bool 3000 0 then 0%nat
         else Z.to_nat (Z.max 1 (Qceiling ((3000 - 100) / 1400))).
Proof.
  apply (slice_count_exact 3000 3); apply Nat.leb_le; reflexivity.
Defined.

Lemma slices_from_on_page (page_h : Q) (y : Z) (tail : list Rect) :
  slices_from page_h y tail ->
  Forall (fun c => (inject_Z (y0 c) < page_h)%Q) tail.
Proof.
  induction 1 as [y Hy Hlast|y rest Hy Hnext Hrest IH];
    constructor; simpl; assumption || constructor.
Qed.

(** X13. Every slice begins on the page, is at most 1500 high and ends at
    most at the height of the page.  A slice followed by another one is
    exactly 1500 high and the next one begins 100 above its lower edge and
    is more than 100 high: the overlap is exactly 100 and no slice lies
    within the previous one. *)
Theorem slice_heights (page_h : Q) (fuel : nat) (clips : list Rect) :
  page_slices page_h fuel = Some clips ->
  forall i c, nth_error clips i = Some c ->
    (inject_Z (y0 c) < y1 c)%Q
    /\ (y1 c <= inject_Z (y0 c) + 1500)%Q
    /\ (y1 c <= page_h)%Q
    /\ (forall d, nth_error clips (S i) = Some d ->
          (y1 c == inject_Z (y0 c) + 1500)%Q
          /\ (y1 c == inject_Z (y0 d) + 100)%Q
          /\ (inject_Z (y0 d) + 100 < y1 d)%Q).
Proof.
  intros H i c Hc.
  destruct (Qlt_le_dec 0 page_h) as [Hpos|Hflat];
    [|rewrite (page_slices_flat _ _ _ Hflat H) in Hc; destruct i; discriminate].
  pose proof (page_slices_trace _ _ _ Hpos H) as Htrace.
  pose proof (slices_from_on_page _ _ _ Htrace) as Hon.
  rewrite Forall_forall in Hon.
  assert (Hrange : forall j e, nth_error clips j = Some e ->
            (inject_Z (y0 e) < page_h)%Q
            /\ y0 e = (Z.of_nat j * 1400)%Z
            /\ (((y1 e == page_h)%Q /\ (page_h <= inject_Z (y0 e) + 1500)%Q)
                \/ ((y1 e == inject_Z (y0 e) + 1500)%Q
                    /\ (inject_Z (y0 e) + 1500 <= page_h)%Q))).
  { intros j e He. split; [apply Hon; eapply nth_error_In; eassumption|].
    destruct (slices_from_position _ _ _ Htrace j e He) as [E0 E1].
    split; [rewrite E0; unfold stride; simpl; lia|].
    rewrite E1, inject_Z_plus. change (inject_Z chunk_h) with 1500%Q.
    destruct (py_min_spec (inject_Z (y0 e) + 1500) page_h) as [[Hlt ->]|[Hle ->]].
    - left. split; [reflexivity|now apply Qlt_le_weak].
    - right. split; [reflexivity|exact Hle]. }
  destruct (Hrange i c Hc) as (Hc0 & Hci & Hc1).
  split; [|split; [|split]].
  - destruct Hc1 as [[E _]|[E _]]; rewrite E; [exact Hc0|q_linear].
  - destruct Hc1 as [[E Hle]|[E _]]; rewrite E; [exact Hle|apply Qle_refl].
  - destruct Hc1 as [[E _]|[E Hle]]; rewrite E; [apply Qle_refl|exact Hle].
  - intros d Hd.
    destruct (Hrange (S i) d Hd) as (Hd0 & Hdi & Hd1).
    assert (Hlt : (y1 c < page_h)%Q).
    { apply (proj1 (slices_from_stop _ _ _ Htrace i c Hc)).
      apply nth_error_Some. congruence. }
    assert (Hnext : (inject_Z (y0 d) == inject_Z (y0 c) + 1400)%Q).
    { rewrite Hdi, Hci.
      replace (Z.of_nat (S i) * 1400)%Z with (Z.of_nat i * 1400 + 1400)%Z by lia.
      rewrite inject_Z_plus. reflexivity. }
    assert (Hfull : (y1 c == inject_Z (y0 c) + 1500)%Q).
    { destruct Hc1 as [[E _]|[E _]]; [|exact E].
      exfalso. rewrite E in Hlt. revert Hlt. apply Qlt_irrefl. }
    split; [exact Hfull|]. split.
    + rewrite Hfull, Hnext. q_linear.
    + rewrite Hfull in Hlt.
      destruct Hd1 as [[E _]|[E _]]; rewrite E; revert Hlt Hnext; q_linear.
Qed.

Lemma slice_heights_witness :
  (inject_Z 0 < 1500)%Q
  /\ (1500 <= inject_Z 0 + 1500)%Q
  /\ (1500 <= 2000)%Q
  /\ (forall d, nth_error [mkRect 0 1500; mkRect 1400 2000] 1 = Some d ->
        (1500 == inject_Z 0 + 1500)%Q
        /\ (1500 == inject_Z (y0 d) + 100)%Q
        /\ (inject_Z (y0 d) + 100 < y1 d)%Q).
Proof.
  apply (slice_heights 2000 2 [mkRect 0 1500; mkRect 1400 2000] eq_refl
           0 (mkRect 0 1500)).
  reflexivity.
Defined.

(** ** The OCR driver: one recognition for each slice *)

(** Whatever the body, the loop runs it on the clips of the page, in
    order. *)
Lemma slice_loop_run (St : Type) (body : nat -> Rect -> St -> St)
      (page_h : Q) (fuel : nat) :
  forall y slice_idx st st',
    slice_loop body page_h fuel y slice_idx st = Some st' ->
    exists tail,
      (forall acc,
          slice_loop (fun _ clip_rect acc => acc ++ [clip_rect])
                     page_h fuel y slice_idx acc = Some (acc ++ tail))
      /\ st' = run_slices body tail slice_idx st.
Proof.
  induction fuel as [|fuel IH]; intros y idx st st' H; [discriminate|].
  simpl in H |- *.
  destruct (Qlt_bool (inject_Z y) page_h).
  - destruct (Qle_bool page_h _).
    + injection H as <-. eexists [_]. split; [reflexivity|reflexivity].
    + apply IH in H as (tail & Hcollect & ->).
      eexists (_ :: tail). split; [|reflexivity].
      intros acc. rewrite Hcollect. now rewrite <- app_assoc.
  - injection H as <-. exists []. split; [|reflexivity].
    intros acc. now rewrite app_nil_r.
Qed.

Lemma slice_loop_page_slices (St : Type) (body : nat -> Rect -> St -> St)
      (page_h : Q) (fuel : nat) (st st' : St) :
  slice_loop body page_h fuel 0 0 st = Some st' ->
  exists clips,
    page_slices page_h fuel = Some clips
    /\ st' = run_slices body clips 0 st.
Proof.
  intros H. apply slice_loop_run in H as (tail & Hcollect & ->).
  exists tail. split; [apply (Hcollect [])|reflexivity].
Qed.


(** *** Stripped texts *)







Section DriverFacts.

Variable unicode_isalnum : char -> bool.
Variable engine : Engine.
Variable fuel : nat.

Lemma run_added_refl (r : Run) : run_added engine 0 r r.
Proof. unfold run_added. repeat split; lia. Qed.

Lemma run_added_trans (n m : nat) (r1 r2 r3 : Run) :
  run_added engine n r1 r2 -> run_added engine m r2 r3 ->
  run_added engine (n + m) r1 r3.
Proof.
  unfold run_added. intros (A1 & A2 & A3 & A4 & A5 & A6)
                           (B1 & B2 & B3 & B4 & B5 & B6).
  repeat split; try lia. intros H. rewrite (B6 H), (A6 H). lia.
Qed.

Lemma ocr_slice_added (page_idx slice_idx : nat) (clip_rect : Rect) (r : Run) :
  run_added engine 1 r
    (ocr_slice unicode_isalnum engine page_idx slice_idx clip_rect r).
Proof.
  unfold run_added, ocr_slice.
  destruct (get_languages engine (queries r)) as [answer|] eqn:E.
  - destruct (image_to_string engine page_idx clip_rect _) as [text|];
      [destruct (strip _)|];
      cbn [queries langs_used full_content]; rewrite ?length_app;
      cbn [length]; repeat split; lia.
  - cbn [queries langs_used full_content]. repeat split; try lia.
    intros H. now elim (H (queries r)).
Qed.

Lemma run_slices_added (page_idx : nat) (clips : list Rect) :
  forall slice_idx r,
    run_added engine (length clips) r
      (run_slices (ocr_slice unicode_isalnum engine page_idx)
                  clips slice_idx r).
Proof.
  induction clips as [|c clips IH]; intros idx r; [apply run_added_refl|].
  change (length (c :: clips)) with (1 + length clips)%nat. simpl run_slices.
  eapply run_added_trans; [apply ocr_slice_added|apply IH].
Qed.

Lemma ocr_pages_added (doc : list Q) :
  forall page_idx r r',
    ocr_pages unicode_isalnum engine fuel page_idx doc r = Some r' ->
    exists slices,
      Forall2 (fun page_h clips => page_slices page_h fuel = Some clips)
              doc slices
      /\ run_added engine (length (concat slices)) r r'.
Proof.
  induction doc as [|page_h doc IH]; intros page_idx r r' H; simpl in H.
  - injection H as <-. exists []. split; [constructor|apply run_added_refl].
  - destruct (slice_loop _ page_h fuel 0 0 r) as [r1|] eqn:Hloop; [|discriminate].
    apply slice_loop_page_slices in Hloop as (clips & Hclips & ->).
    apply IH in H as (slices & Hall & Hadd).
    exists (clips :: slices). split; [now constructor|].
    simpl. rewrite length_app.
    eapply run_added_trans; [apply run_slices_added|exact Hadd].
Qed.

(** The loops end, with the iterations of [X16]. *)
Lemma ocr_pages_ends (doc : list Q) :
  (1 <= fuel)%nat ->
  Forall (fun page_h => (slice_bound page_h <= fuel)%nat) doc ->
  forall page_idx r0,
    exists r, ocr_pages unicode_isalnum engine fuel page_idx doc r0 = Some r.
Proof.
  intros H1 Hdoc.
  induction Hdoc as [|page_h doc Hb _ IH]; intros page_idx r0; simpl;
    [now eexists|].
  destruct (page_loop_ends _ (ocr_slice unicode_isalnum engine page_idx)
              page_h fuel r0 H1 Hb) as [r1 ->].
  apply IH.
Qed.




End DriverFacts.

(** X14. With enough iterations allowed the driver returns, and it has
    queried the engine for its languages exactly once for each slice of
    each page, the slices of a page being those of the slicing loop.  It
    selects a profile at most once for each query, and exactly once when
    no query raises; it collects at most one text for each profile
    selected. *)
Theorem driver_one_query_per_slice
  (unicode_isalnum : char -> bool) (engine : Engine)
  (fuel : nat) (doc : list Q) :
  (1 <= fuel)%nat ->
  Forall (fun page_h => (slice_bound page_h <= fuel)%nat) doc ->
  exists r text slices,
    ocr_pdf_with_tesseract unicode_isalnum engine fuel doc = Some (r, text)
    /\ Forall2 (fun page_h clips => page_slices page_h fuel = Some clips)
               doc slices
    /\ queries r = length (concat slices)
    /\ (length (langs_used r) <= queries r)%nat
    /\ (length (full_content r) <= length (langs_used r))%nat
    /\ ((forall k, get_languages engine k <> None) ->
        length (langs_used r) = queries r).
Proof.
  intros H1 Hdoc. unfold ocr_pdf_with_tesseract.
  destruct (ocr_pages_ends unicode_isalnum engine fuel doc H1 Hdoc 0%nat
              (mkRun 0 [] [])) as [r Hr].
  rewrite Hr.
  apply ocr_pages_added in Hr as (slices & Hall & Hq & Hl1 & Hl2 & Hf1 & Hf2 & Hl3).
  cbn [queries langs_used full_content length] in *.
  exists r, (join [10; 10] (full_content r)), slices.
  repeat split; try assumption; try lia.
  intros H. rewrite (Hl3 H). lia.
Qed.

Lemma driver_one_query_per_slice_witness :
  exists r text slices,
    ocr_pdf_with_tesseract ascii_isalnum broken_engine 3 [1000%Q; 3000%Q]
    = Some (r, text)
    /\ Forall2 (fun page_h clips => page_slices page_h 3 = Some clips)
               [1000%Q; 3000%Q] slices
    /\ queries r = length (concat slices)
    /\ (length (langs_used r) <= queries r)%nat
    /\ (length (full_content r) <= length (langs_used r))%nat
    /\ ((forall k, get_languages broken_engine k <> None) ->
        length (langs_used r) = queries r).
Proof.
  apply (driver_one_query_per_slice ascii_isalnum broken_engine 3
           [1000%Q; 3000%Q]).
  - apply Nat.leb_le. reflexivity.
  - repeat constructor; apply Nat.leb_le; reflexivity.
Defined.



(** X16. The driver ends on every document: with a number of iterations
    allowed per page that is at least 1 and at least the bound of the
    slices of each page, it returns a text, whatever the engine does. *)
Theorem driver_terminates
  (unicode_isalnum : char -> bool) (engine : Engine)
  (fuel : nat) (doc : list Q) :
  (1 <= fuel)%nat ->
  Forall (fun page_h => (slice_bound page_h <= fuel)%nat) doc ->
  exists r text,
    ocr_pdf_with_tesseract unicode_isalnum engine fuel doc = Some (r, text).
Proof.
  intros H1 Hdoc. unfold ocr_pdf_with_tesseract.
  assert (Hpages : forall page_idx r0,
             exists r, ocr_pages unicode_isalnum engine fuel page_idx doc r0
                       = Some r).
  { induction Hdoc as [|page_h doc Hb _ IH]; intros page_idx r0; simpl;
      [now eexists|].
    destruct (page_loop_ends _ (ocr_slice unicode_isalnum engine page_idx)
                page_h fuel r0 H1 Hb) as [r1 ->].
    apply IH. }
  destruct (Hpages 0%nat (mkRun 0 [] [])) as [r ->]. now repeat eexists.
Qed.

Lemma driver_terminates_witness :
  exists r text,
    ocr_pdf_with_tesseract ascii_isalnum changing_engine 3
      [842%Q; 0%Q; 3000%Q] = Some (r, text).
Proof.
  apply (driver_terminates ascii_isalnum changing_engine 3
           [842%Q; 0%Q; 3000%Q]).
  - apply Nat.leb_le. reflexivity.
  - repeat constructor; apply Nat.leb_le; reflexivity.
Defined.

(** ** The command line: counts and exit status *)

Lemma directory_loop_counts (w : World) (show_progress auto_clean : bool)
      (files : list str) :
  forall s f,
    fold_left (fun '(success_count, fail_count) file_path =>
                 if process_single_file w file_path show_progress auto_clean
                 then (S success_count, fail_count)
                 else (success_count, S fail_count))
              files (s, f)
    = ((s + length (filter (fun file_path =>
                              process_single_file w file_path
                                show_progress auto_clean) files))%nat,
       (f + length (filter (fun file_path =>
                              negb (process_single_file w file_path
                                      show_progress auto_clean)) files))%nat).
Proof.
  induction files as [|file files IH]; intros s f; simpl;
    [now rewrite !Nat.add_0_r|].
  destruct (process_single_file w file show_progress auto_clean); simpl;
    rewrite IH; f_equal; lia.
Qed.

Lemma process_directory_counts (w : World) (dir_path : str)
      (show_progress auto_clean : bool) :
  let files := flat_map (glob w dir_path) supported_patterns in
  let ok file_path := process_single_file w file_path show_progress auto_clean in
  process_directory w dir_path show_progress auto_clean
  = if isdir w dir_path
    then (length (filter ok files),
          length (filter (fun file_path => negb (ok file_path)) files),
          length files)
    else (0, 0, 0)%nat.
Proof.
  intros files ok. unfold process_directory. fold files.
  destruct (isdir w dir_path); [|reflexivity]. simpl.
  destruct files as [|file files'] eqn:E; [reflexivity|].
  rewrite directory_loop_counts. reflexivity.
Qed.

(** X17. The result of [process_directory] counts every matched file
    once for each pattern that matches it: on a directory the total is the
    number of matches of the supported patterns, the successes are the
    matches [process_single_file] succeeds on, and successes and failures
    add up to the total; on a path that is not a directory all three are 0. *)
Theorem process_directory_tally (w : World) (dir_path : str)
        (show_progress auto_clean : bool) :
  exists success_count fail_count total,
    process_directory w dir_path show_progress auto_clean
    = (success_count, fail_count, total)
    /\ (success_count + fail_count = total)%nat
    /\ total = (if isdir w dir_path
                then length (flat_map (glob w dir_path) supported_patterns)
                else 0%nat)
    /\ success_count
       = (if isdir w dir_path
          then length (filter (fun file_path =>
                                 process_single_file w file_path
                                   show_progress auto_clean)
                              (flat_map (glob w dir_path) supported_patterns))
          else 0%nat).
Proof.
  rewrite process_directory_counts.
  destruct (isdir w dir_path); do 3 eexists;
    (split; [reflexivity|]); (split; [|split; reflexivity]); [|reflexivity].
  apply filter_length.
Qed.

(** *** The exit status, with the calls that do not return *)

Section HandlerFacts.

Variable w : RaisingWorld.
Variables show_progress auto_clean : bool.

Lemma directory_loop_interrupted (files : list str) :
  forall s f,
    directory_loop w show_progress auto_clean files s f = inl KeyboardInterrupt
    <-> interrupted_at w show_progress auto_clean files.
Proof.
  induction files as [|file files IH]; intros s f.
  - split; [discriminate|]. intros (before & fp & rest & E & _).
    destruct before; discriminate.
  - cbn [directory_loop].
    destruct (r_process_single_file w file show_progress auto_clean)
      as [[|]|success] eqn:Hcall.
    + split; [intros _|reflexivity].
      exists [], file, files. now repeat split.
    + split; [discriminate|]. intros (before & fp & rest & E & Hb & Hfp).
      destruct before as [|b before]; injection E as -> ->.
      * congruence.
      * inversion Hb as [|? ? [? Hs] _]; subst. congruence.
    + assert (Hiff : interrupted_at w show_progress auto_clean files
                     <-> interrupted_at w show_progress auto_clean
                           (file :: files)).
      { split.
        - intros (before & fp & rest & -> & Hb & Hfp).
          exists (file :: before), fp, rest. repeat split; [|exact Hfp].
          constructor; [now exists success|exact Hb].
        - intros (before & fp & rest & E & Hb & Hfp).
          destruct before as [|b before]; injection E as -> ->; [congruence|].
          inversion Hb; subst. now exists before, fp, rest. }
      destruct success; rewrite IH; exact Hiff.
Qed.

Lemma directory_loop_failures (files : list str) :
  forall s f s' f',
    directory_loop w show_progress auto_clean files s f = inr (s', f') ->
    (f <= f')%nat
    /\ (f' = f ->
        forall file, In file files ->
          r_process_single_file w file show_progress auto_clean = inr true).
Proof.
  induction files as [|file files IH]; intros s f s' f' H.
  - injection H as <- <-. split; [lia|intros _ file []].
  - cbn [directory_loop] in H.
    destruct (r_process_single_file w file show_progress auto_clean)
      as [e|[|]] eqn:Hcall; [discriminate| |].
    + apply IH in H as [Hle Hall]. split; [exact Hle|].
      intros E fl [<-|Hin]; [exact Hcall|now apply Hall].
    + apply IH in H as [Hle Hall]. split; [lia|]. intros E. lia.
Qed.

Lemma directory_loop_all_ok (files : list str) :
  (forall file, In file files ->
     r_process_single_file w file show_progress auto_clean = inr true) ->
  forall s f,
    directory_loop w show_progress auto_clean files s f
    = inr ((s + length files)%nat, f).
Proof.
  induction files as [|file files IH]; intros Hall s f; cbn [directory_loop].
  - now rewrite Nat.add_0_r.
  - rewrite (Hall file (or_introl eq_refl)).
    rewrite IH by (intros fl Hin; apply Hall; now right).
    cbn [length]. f_equal. f_equal. lia.
Qed.

End HandlerFacts.

Lemma directory_loop_returning (w0 : World) (show_progress auto_clean : bool)
      (files : list str) :
  forall s f,
    directory_loop (returning w0) show_progress auto_clean files s f
    = inr (fold_left
             (fun '(success_count, fail_count) file_path =>
                if process_single_file w0 file_path show_progress auto_clean
                then (S success_count, fail_count)
                else (success_count, S fail_count))
             files (s, f)).
Proof.
  induction files as [|file files IH]; intros s f; [reflexivity|].
  cbn [directory_loop fold_left returning r_process_single_file].
  destruct (process_single_file w0 file show_progress auto_clean); apply IH.
Qed.

(** X18. Once the arguments are parsed, the exit status of [main] is 0, 1
    or 130.  It is 130 exactly when the processing of a file is
    interrupted by the user, the files before it having been processed; it
    is 0 exactly when, in directory mode, no matched file fails or raises
    (which includes a path that is not a directory and a directory without
    supported file) and, in file mode, the path is a file and its
    processing succeeds.  When every call returns, the status is the one
    computed without the handlers. *)
Theorem main_exit_status (w : RaisingWorld) (args : Args) :
  let files := flat_map (r_glob w (path args)) supported_patterns in
  let call file_path :=
    r_process_single_file w file_path (negb (quiet args)) (clean args) in
  (main_with_handlers w args = 0%Z \/ main_with_handlers w args = 1%Z
   \/ main_with_handlers w args = 130%Z)
  /\ (main_with_handlers w args = 130%Z
      <-> if directory args
          then r_isdir w (path args) = true
               /\ interrupted_at w (negb (quiet args)) (clean args) files
          else r_isfile w (path args) = true
               /\ call (path args) = inl KeyboardInterrupt)
  /\ (main_with_handlers w args = 0%Z
      <-> if directory args
          then r_isdir w (path args) = true ->
               forall file_path, In file_path files ->
                                 call file_path = inr true
          else r_isfile w (path args) = true /\ call (path args) = inr true)
  /\ (forall w0 : World, main_with_handlers (returning w0) args = main w0 args).
Proof.
  intros files call.
  assert (Hdir : directory args = true ->
            (main_with_handlers w args = 0%Z \/ main_with_handlers w args = 1%Z
             \/ main_with_handlers w args = 130%Z)
            /\ (main_with_handlers w args = 130%Z
                <-> r_isdir w (path args) = true
                    /\ interrupted_at w (negb (quiet args)) (clean args) files)
            /\ (main_with_handlers w args = 0%Z
                <-> (r_isdir w (path args) = true ->
                     forall file_path, In file_path files ->
                                       call file_path = inr true))).
  { intros Hd. unfold main_with_handlers, main_try, process_directory_raising.
    rewrite Hd. fold files.
    destruct (r_isdir w (path args)); cbn [negb].
    2:{ cbn. split; [now left|]. split; split; try discriminate;
          try reflexivity; intros [H _]; discriminate H. }
    pose proof (directory_loop_interrupted w (negb (quiet args)) (clean args)
                  files 0 0) as Hint.
    pose proof (directory_loop_failures w (negb (quiet args)) (clean args)
                  files 0 0) as Hfail.
    pose proof (directory_loop_all_ok w (negb (quiet args)) (clean args)
                  files) as Hok.
    destruct files as [|file files'] eqn:Efiles.
    { cbn. split; [now left|]. split; split; try discriminate;
        try reflexivity.
      - intros [_ (before & fp & rest & E & _)]. destruct before; discriminate.
      - intros _ _ fl []. }
    destruct (directory_loop w (negb (quiet args)) (clean args)
                (file :: files') 0 0) as [[|]|[s' f']] eqn:Hloop.
    - split; [now right; right|]. split.
      + split; [intros _; split; [reflexivity|now apply Hint]|reflexivity].
      + split; [discriminate|]. intros Hall.
        rewrite (Hok (Hall eq_refl) 0%nat 0%nat) in Hloop. discriminate.
    - split; [now right; left|]. split.
      + split; [discriminate|]. intros [_ H]. apply Hint in H. discriminate.
      + split; [discriminate|]. intros Hall.
        rewrite (Hok (Hall eq_refl) 0%nat 0%nat) in Hloop. discriminate.
    - destruct (Hfail s' f' eq_refl) as [_ Hzero].
      destruct (Nat.eqb_spec f' 0) as [->|Hne].
      + split; [now left|]. split.
        * split; [discriminate|]. intros [_ H]. apply Hint in H. discriminate.
        * split; [intros _ _; now apply Hzero|reflexivity].
      + split; [now right; left|]. split.
        * split; [discriminate|]. intros [_ H]. apply Hint in H. discriminate.
        * split; [discriminate|]. intros Hall.
          rewrite (Hok (Hall eq_refl) 0%nat 0%nat) in Hloop.
          injection Hloop as _ E. now elim Hne. }
  assert (Hagree : forall w0 : World,
             main_with_handlers (returning w0) args = main w0 args).
  { intros w0. unfold main_with_handlers, main_try, process_directory_raising,
      main, process_directory.
    cbn [returning r_isdir r_isfile r_glob r_process_single_file].
    destruct (directory args).
    - destruct (isdir w0 (path args)); cbn [negb]; [|reflexivity].
      destruct (flat_map (glob w0 (path args)) supported_patterns)
        as [|file files'] eqn:E; [reflexivity|].
      rewrite directory_loop_returning.
      destruct (fold_left _ (file :: files') (0%nat, 0%nat)) as [s' f'].
      reflexivity.
    - destruct (isfile w0 (path args)); [|now destruct (isdir w0 (path args))].
      reflexivity. }
  destruct (directory args) eqn:Hd.
  - destruct (Hdir eq_refl) as (H1 & H2 & H3).
    exact (conj H1 (conj H2 (conj H3 Hagree))).
  - split; [|split; [|split; [|exact Hagree]]];
      unfold main_with_handlers, main_try; rewrite Hd;
      destruct (r_isfile w (path args)).
    + subst call. cbn beta.
      destruct (r_process_single_file w (path args) _ _) as [[|]|[|]]; tauto.
    + destruct (r_isdir w (path args)); tauto.
    + subst call. cbn beta.
      destruct (r_process_single_file w (path args) _ _) as [[|]|[|]];
        split; try discriminate; try (intros [_ H]; discriminate H);
        try reflexivity; now split.
    + destruct (r_isdir w (path args)); split; try discriminate;
        intros [H _]; discriminate H.
    + subst call. cbn beta.
      destruct (r_process_single_file w (path args) _ _) as [[|]|[|]];
        split; try discriminate; try (intros [_ H]; discriminate H);
        try reflexivity; now split.
    + destruct (r_isdir w (path args)); split; try discriminate;
        intros [H _]; discriminate H.
Qed.

(** A directory with two PDF files, the second of which is interrupted. *)
Lemma main_exit_status_witness :
  main_with_handlers
    (mkRaisingWorld (fun _ => true) (fun _ => false)
       (fun _ pattern =>
          if str_eqb pattern (lit "*.pdf") then [lit "a.pdf"; lit "b.pdf"]
          else [])
       (fun file_path _ _ =>
          if str_eqb file_path (lit "a.pdf") then inr true
          else inl KeyboardInterrupt))
    (mkArgs (lit "scans") true false false) = 130%Z.
Proof.
  apply (proj2 (proj1 (proj2 (main_exit_status _ _)))).
  split; [reflexivity|].
  exists [lit "a.pdf"], (lit "b.pdf"), []. repeat split.
  repeat constructor. now exists true.
Defined.
(** ** The batch of text_cleaner.py *)

Section BatchFacts.

Variable unicode_isdigit : char -> bool.

Lemma clean_empty_file (name : str) :
  clean_ocr_text_file unicode_isdigit name (Some []) = raise ZeroDivisionError.
Proof.
  unfold clean_ocr_text_file. rewrite extract_metadata_total. reflexivity.
Qed.

Lemma batch_step_raw (results : list CleanResult) (file : BatchFile) :
  map raw_text (batch_step unicode_isdigit results file)
  = map raw_text results ++ readable file.
Proof.
  unfold batch_step, readable.
  destruct file as [name printed [[|c x]|] [|]];
    cbn [file_name file_content output_written].
  - rewrite clean_empty_file. unfold raise. now rewrite app_nil_r.
  - rewrite clean_empty_file. unfold raise. now rewrite app_nil_r.
  - rewrite (clean_nonempty_file unicode_isdigit name (c :: x)) by discriminate.
    unfold ret. rewrite map_app. reflexivity.
  - rewrite (clean_nonempty_file unicode_isdigit name (c :: x)) by discriminate.
    unfold ret. now rewrite app_nil_r.
  - cbn [clean_ocr_text_file]. unfold raise. now rewrite app_nil_r.
  - cbn [clean_ocr_text_file]. unfold raise. now rewrite app_nil_r.
Qed.

Lemma batch_loop_returns (files : list BatchFile) :
  Forall (fun file => name_printed file = true) files ->
  forall results,
    batch_loop unicode_isdigit files results
    = inr (fold_left (batch_step unicode_isdigit) files results).
Proof.
  induction 1 as [|file files Hp _ IH]; intros results;
    cbn [batch_loop fold_left]; [reflexivity|].
  rewrite Hp. cbn [negb]. apply IH.
Qed.

Lemma batch_loop_raises (files : list BatchFile) :
  Exists (fun file => name_printed file = false) files ->
  forall results,
    batch_loop unicode_isdigit files results = inl PrintError.
Proof.
  induction 1 as [file files Hp|file files _ IH]; intros results;
    cbn [batch_loop].
  - now rewrite Hp.
  - destruct (name_printed file); cbn [negb]; [apply IH|reflexivity].
Qed.

Lemma batch_fold_raw (files : list BatchFile) :
  forall results,
    map raw_text (fold_left (batch_step unicode_isdigit) files results)
    = map raw_text results ++ flat_map readable files.
Proof.
  induction files as [|file files IH]; intros results;
    cbn [fold_left flat_map].
  - now rewrite app_nil_r.
  - now rewrite IH, batch_step_raw, <- app_assoc.
Qed.

Lemma readable_at_most_one (files : list BatchFile) :
  (length (flat_map readable files) <= length files)%nat.
Proof.
  induction files as [|[name printed [[|c x]|] [|]] files IH];
    cbn [flat_map readable file_content output_written length app] in *; lia.
Qed.

End BatchFacts.

(** X19. On a directory whose output directory can be created and whose
    pattern is accepted, [batch_clean_directory] returns when the name of
    every matched file can be printed: the results are those of the files
    that can be read as UTF-8 text, are not empty and whose cleaned file
    can be written, in the order of the files; a file that is missing,
    unreadable, not UTF-8, empty or whose output cannot be written gives
    no result and does not stop the batch.  A name that cannot be printed
    ends the batch with the error of [print]; a path that is not a
    directory gives NotADirectoryError, an output directory that cannot
    be created the error of [mkdir], a pattern that is not accepted the
    error of [glob]. *)
Theorem batch_skips_unreadable_files
  (unicode_isdigit : char -> bool) (files : list BatchFile) :
  (Forall (fun file => name_printed file = true) files ->
   exists results,
     batch_clean_directory unicode_isdigit true true (Some files) = inr results
     /\ map raw_text results = flat_map readable files
     /\ (length results <= length files)%nat)
  /\ (Exists (fun file => name_printed file = false) files ->
      batch_clean_directory unicode_isdigit true true (Some files)
      = inl PrintError)
  /\ (forall mkdir_ok matched,
         batch_clean_directory unicode_isdigit false mkdir_ok matched
         = inl NotADirectoryError)
  /\ (forall matched,
         batch_clean_directory unicode_isdigit true false matched
         = inl MkdirError)
  /\ batch_clean_directory unicode_isdigit true true None = inl GlobError.
Proof.
  split; [|split; [|repeat split]].
  - intros Hp. exists (fold_left (batch_step unicode_isdigit) files []).
    split.
    + destruct files as [|file rest]; [reflexivity|].
      cbn [batch_clean_directory negb]. now apply batch_loop_returns.
    + pose proof (batch_fold_raw unicode_isdigit files []) as H.
      cbn [map app] in H. split; [exact H|].
      rewrite <- (length_map raw_text), H. apply readable_at_most_one.
  - intros Hp. destruct files as [|file rest]; [inversion Hp|].
    cbn [batch_clean_directory negb]. now apply batch_loop_raises.
Qed.

(** Four files: one that is read and cleaned, one that is empty, one that
    is not UTF-8 text, and one whose cleaned file cannot be written. *)
Lemma batch_skips_unreadable_files_witness :
  exists results,
    batch_clean_directory ascii_isdigit true true
      (Some [ mkBatchFile (lit "a.txt") true (Some (lit "text")) true
            ; mkBatchFile (lit "b.txt") true (Some []) true
            ; mkBatchFile (lit "c.txt") true None true
            ; mkBatchFile (lit "d.txt") true (Some (lit "more")) false ])
    = inr results
    /\ map raw_text results = [lit "text"]
    /\ (length results <= 4)%nat.
Proof.
  refine (proj1 (batch_skips_unreadable_files ascii_isdigit
            [ mkBatchFile (lit "a.txt") true (Some (lit "text")) true
            ; mkBatchFile (lit "b.txt") true (Some []) true
            ; mkBatchFile (lit "c.txt") true None true
            ; mkBatchFile (lit "d.txt") true (Some (lit "more")) false ]) _).
  repeat constructor.
Defined.

(** ** The compression ratio at its two ends *)

Lemma round_half_even_comp (v w : Q) :
  (v == w)%Q -> round_half_even v = round_half_even w.
Proof.
  intros E. unfold round_half_even.
  rewrite (Qfloor_comp v w E).
  assert (Ec : ((v - inject_Z (Qfloor w) ?= 1 # 2)
                = (w - inject_Z (Qfloor w) ?= 1 # 2))%Q)
    by (apply Qcompare_comp; [now rewrite E|reflexivity]).
  now rewrite Ec.
Qed.

(** The text of a value depends on the value only, not on the fraction
    that represents it. *)
Lemma format_2f_comp (v w : Q) : (v == w)%Q -> format_2f v = format_2f w.
Proof.
  intros E. unfold format_2f.
  assert (Er : round_half_even (Qabs v * 100) = round_half_even (Qabs w * 100))
    by (apply round_half_even_comp; now rewrite E).
  assert (Es : Qle_bool 0 v = Qle_bool 0 w)
    by (apply Qleb_comp; [reflexivity|exact E]).
  now rewrite Er, Es.
Qed.

Lemma normalize_text_blank (x : str) : blank x = true -> normalize_text x = [].
Proof.
  rewrite blank_forallb, normalize_text_delete_map. intros H.
  rewrite forallb_forall in H. unfold re_sub_spaces.
  replace (filter (fun c => negb (isspace c)) x) with (@nil char); [reflexivity|].
  symmetry. induction x as [|c x IH]; [reflexivity|]. simpl.
  rewrite (H c (or_introl eq_refl)). simpl. apply IH.
  intros d Hd. apply H. now right.
Qed.

(** X20. The two ends of the compression ratio.  A file that is not empty
    and holds only whitespace is cleaned to the empty text, without
    sentence or paragraph, and its ratio is 100.00%; a file that is not
    empty and holds no whitespace keeps its length and its ratio is
    0.00%. *)
Theorem compression_ratio_extremes
  (unicode_isdigit : char -> bool) (name x : str) :
  x <> [] ->
  (blank x = true ->
   exists res,
     clean_ocr_text_file unicode_isdigit name (Some x) = ret res
     /\ normalized_text res = [] /\ sentences res = [] /\ paragraphs res = []
     /\ stats res = mkStats (length x) 0 0 0 (lit "100.00%"))
  /\ (no_space x ->
      exists res,
        clean_ocr_text_file unicode_isdigit name (Some x) = ret res
        /\ cleaned_length (stats res) = length x
        /\ compression_ratio (stats res) = lit "0.00%").
Proof.
  intros Hx.
  assert (Hlen : (0 < inject_Z (Z.of_nat (length x)))%Q).
  { change 0%Q with (inject_Z 0). rewrite <- Zlt_Qlt.
    destruct x; [contradiction|simpl; lia]. }
  split.
  - intros Hb. eexists. split; [now apply clean_nonempty_file|].
    cbn [normalized_text sentences paragraphs stats].
    rewrite (normalize_text_blank x Hb).
    split; [reflexivity|]. split; [reflexivity|]. split; [reflexivity|].
    change (lit "100.00%") with (format_2f 100 ++ lit "%").
    change (length (split_into_sentences [])) with 0%nat.
    change (length (split_into_paragraphs [] default_min_length)) with 0%nat.
    cbn [length]. f_equal. f_equal. apply format_2f_comp.
    change (inject_Z (Z.of_nat 0)) with 0%Q.
    set (n := inject_Z (Z.of_nat (length x))) in *. field.
    intros E. rewrite E in Hlen. revert Hlen. apply Qlt_irrefl.
  - intros Hns. eexists. split; [now apply clean_nonempty_file|].
    cbn [stats cleaned_length compression_ratio].
    assert (El : length (normalize_text x) = length x).
    { rewrite normalize_text_delete_map, length_map.
      now rewrite (re_sub_spaces_id x Hns). }
    split; [exact El|]. rewrite El.
    change (lit "0.00%") with (format_2f 0 ++ lit "%").
    f_equal. apply format_2f_comp.
    set (n := inject_Z (Z.of_nat (length x))) in *. field.
    intros E. rewrite E in Hlen. revert Hlen. apply Qlt_irrefl.
Qed.

Lemma compression_ratio_extremes_witness :
  exists res,
    clean_ocr_text_file ascii_isdigit (lit "scan.txt") (Some (lit "abc"))
    = ret res
    /\ cleaned_length (stats res) = length (lit "abc")
    /\ compression_ratio (stats res) = lit "0.00%".
Proof.
  apply (proj2 (compression_ratio_extremes ascii_isdigit (lit "scan.txt")
                  (lit "abc") ltac:(discriminate))).
  repeat constructor.
Defined.

(** ** The layout of the cleaned file *)

Lemma lines_of_line (l rest : str) :
  ~ In 10 l -> lines_of (l ++ 10 :: rest) = l :: lines_of rest.
Proof.
  intros H. unfold lines_of. apply split_on_app_sep; [|reflexivity].
  now apply not_in_all_in.
Qed.

Lemma lines_of_empty_line (rest : str) :
  lines_of (10 :: rest) = [] :: lines_of rest.
Proof. reflexivity. Qed.

Lemma lines_of_lines (ls : list str) (rest : str) :
  Forall (fun l => ~ In 10 l) ls ->
  lines_of (concat (map (fun l => l ++ [10]) ls) ++ rest) = ls ++ lines_of rest.
Proof.
  induction 1 as [|l ls Hl _ IH]; [reflexivity|].
  cbn [map concat]. rewrite <- !app_assoc. cbn [app].
  rewrite lines_of_line by exact Hl. now rewrite IH.
Qed.

Lemma lines_of_paragraphs (ps : list str) :
  Forall (fun p => ~ In 10 p) ps ->
  lines_of (concat (map (fun para => para ++ [10; 10]) ps))
  = flat_map (fun p => [p; []]) ps ++ [[]].
Proof.
  induction 1 as [|p ps Hp _ IH]; [reflexivity|].
  cbn [map concat flat_map]. rewrite <- !app_assoc. cbn [app].
  rewrite lines_of_line by exact Hp.
  rewrite lines_of_empty_line. now rewrite IH.
Qed.

Lemma output_text_writes (m : Metadata) (st : Stats) (ps : list str) :
  output_text m st ps
  = concat (map (fun l => l ++ [10]) (header_lines m st))
    ++ 10 :: repeat 61 60
    ++ 10 :: 10 :: concat (map (fun para => para ++ [10; 10]) ps).
Proof.
  unfold output_text, header_lines. cbn [map concat].
  repeat (rewrite <- app_assoc; cbn [app]). reflexivity.
Qed.

Lemma decimal_digits (n : Z) :
  Forall (fun c => in_range 48 57 c = true) (decimal n).
Proof.
  unfold decimal. generalize (N.to_uint (Z.to_N n)). intros u.
  assert (H : Forall (fun c => in_range 48 57 c = true)
                (lit (DecimalString.NilEmpty.string_of_uint u))).
  { induction u; simpl; constructor; (reflexivity || assumption). }
  destruct u; try exact H. repeat constructor.
Qed.

Lemma decimal_no_lf (n : Z) : ~ In 10 (decimal n).
Proof.
  intros H. pose proof (decimal_digits n) as Hd.
  rewrite Forall_forall in Hd. specialize (Hd 10 H). discriminate Hd.
Qed.

(** The lines of the text written, when no field of the header and no
    paragraph contains a line feed. *)
Lemma output_text_lines (m : Metadata) (st : Stats) (ps : list str) :
  ~ In 10 (title m) -> ~ In 10 (date m) -> ~ In 10 (page_info m) ->
  ~ In 10 (compression_ratio st) ->
  Forall (fun p => ~ In 10 p) ps ->
  lines_of (output_text m st ps)
  = header_lines m st ++ [[]; repeat 61 60; []]
    ++ flat_map (fun p => [p; []]) ps ++ [[]].
Proof.
  intros Ht Hd Hp Hr Hps. rewrite output_text_writes.
  rewrite lines_of_lines.
  - f_equal. rewrite lines_of_empty_line.
    rewrite lines_of_line.
    + rewrite lines_of_empty_line.
      now rewrite lines_of_paragraphs.
    + intros H. apply repeat_spec in H. discriminate H.
  - unfold header_lines.
    repeat constructor; intros H;
      repeat (apply in_app_or in H as [H|H]);
      try (simpl in H; intuition discriminate);
      try contradiction;
      try (now apply decimal_no_lf in H).
Qed.

(** The characters of the fields come from the file name. *)
Lemma path_name_chars (filename : str) (c : char) :
  In c (path_name filename) -> In c filename.
Proof.
  unfold path_name. set (parts := filter _ _).
  assert (Hparts : forall p, In p parts -> In p (split_on (char_eqb 47) filename))
    by (intros p Hp; now apply filter_In in Hp).
  clearbody parts. intros H.
  assert (Hlast : In (last parts []) parts \/ last parts [] = []).
  { clear. induction parts as [|p parts IH]; [now right|].
    destruct parts as [|q parts]; [left; now left|].
    destruct IH as [IH|IH]; [left; right; exact IH|right; exact IH]. }
  destruct Hlast as [Hl|Hl]; [|rewrite Hl in H; contradiction].
  eapply split_on_chars; [apply Hparts; exact Hl|exact H].
Qed.

Lemma path_stem_chars (filename : str) (c : char) :
  In c (path_stem filename) -> In c filename.
Proof.
  unfold path_stem. intros H. apply path_name_chars.
  destruct (_ && _)%bool; [|exact H].
  rewrite <- (firstn_skipn (Z.to_nat (rfind_dot 0 (path_name filename)))).
  apply in_or_app. now left.
Qed.

Lemma firstn_incl (n : nat) (s : str) (c : char) : In c (firstn n s) -> In c s.
Proof.
  intros H. rewrite <- (firstn_skipn n s). apply in_or_app. now left.
Qed.

Lemma skipn_incl (n : nat) (s : str) (c : char) : In c (skipn n s) -> In c s.
Proof.
  intros H. rewrite <- (firstn_skipn n s). apply in_or_app. now right.
Qed.

Lemma metadata_spec_no_lf (unicode_isdigit : char -> bool) (filename : str) :
  ~ In 10 filename ->
  let m := extract_metadata_spec unicode_isdigit filename in
  ~ In 10 (title m) /\ ~ In 10 (date m) /\ ~ In 10 (page_info m).
Proof.
  intros Hname. unfold extract_metadata_spec. cbn [title date page_info].
  pose proof (split_on_chars (char_eqb 95) (path_stem filename)) as Hchars.
  pose proof (split_on_not_nil (char_eqb 95) (path_stem filename)) as Hne.
  assert (Hfield : forall f, In f (split_on (char_eqb 95) (path_stem filename)) ->
                             ~ In 10 f).
  { intros f Hf H. apply Hname. eapply path_stem_chars, Hchars; eassumption. }
  destruct (split_on (char_eqb 95) (path_stem filename)) as [|f0 fields];
    [contradiction|].
  cbn [nth]. split; [apply Hfield; now left|]. split.
  - destruct fields as [|f1 fields]; [intros []|]. cbn [nth_error].
    assert (H1 : ~ In 10 f1) by (apply Hfield; right; now left).
    unfold date_of_field. destruct (_ && _)%bool; [|intros []].
    intros H. apply H1.
    repeat (apply in_app_or in H as [H|H]);
      try (simpl in H; intuition discriminate);
      repeat (apply firstn_incl in H || apply skipn_incl in H); exact H.
  - intros H. apply join_chars in H as [H|(p & Hp & H)].
    + simpl in H. destruct H as [H|[]]. discriminate H.
    + apply (Hfield p); [|exact H].
      rewrite <- (firstn_skipn 2 (f0 :: fields)). apply in_or_app. now right.
Qed.

Lemma format_2f_no_lf (v : Q) : ~ In 10 (format_2f v).
Proof.
  unfold format_2f. intros H.
  repeat (apply in_app_or in H as [H|H]).
  - destruct (Qle_bool 0 v); simpl in H; intuition discriminate.
  - now apply decimal_no_lf in H.
  - simpl in H; intuition discriminate.
  - destruct (Nat.ltb _ 2); simpl in H; intuition discriminate.
  - now apply decimal_no_lf in H.
Qed.

(** The characters of a paragraph come from the text or are the full
    stops written after the sentences. *)
Lemma paragraph_chars (text : str) (min_length : Z) (p : str) (c : char) :
  In p (split_into_paragraphs text min_length) -> In c p ->
  c = 12290 \/ In c text.
Proof.
  intros Hp Hc.
  destruct (paragraphs_groups text min_length) as (groups & Hcat & Hpar & _).
  rewrite Hpar in Hp. apply filter_In in Hp as [Hp _].
  apply in_map_iff in Hp as (g & <- & Hg).
  unfold render in Hc. apply in_concat in Hc as (t & Ht & Hc).
  apply in_map_iff in Ht as (s & <- & Hs).
  apply in_app_or in Hc as [Hc|[<-|[]]]; [right|now left].
  assert (Hsent : In s (split_into_sentences text)).
  { rewrite <- Hcat. apply in_concat. now exists g. }
  unfold split_into_sentences in Hsent.
  apply in_map_iff in Hsent as (f & <- & Hf).
  apply filter_In in Hf as [Hf _]. apply strip_incl in Hc.
  eapply split_on_chars; eassumption.
Qed.

(** *** The text written can be encoded *)

Lemma low_encodable (lo hi c : char) :
  hi < 55296 -> in_range lo hi c = true -> utf8_encodable c = true.
Proof.
  unfold in_range, utf8_encodable. intros Hhi H.
  apply andb_true_iff in H as [_ H]. apply N.leb_le in H.
  apply andb_true_iff. split; [apply N.leb_le; lia|].
  apply negb_true_iff, andb_false_iff. left. apply N.leb_gt. lia.
Qed.

Lemma decimal_encodable (n : Z) : encodable (decimal n).
Proof.
  eapply Forall_impl; [|apply decimal_digits].
  intros c. now apply low_encodable.
Qed.

Lemma format_2f_encodable (v : Q) : encodable (format_2f v).
Proof.
  unfold format_2f, encodable. repeat (apply Forall_app; split);
    try apply decimal_encodable.
  - destruct (Qle_bool 0 v); repeat constructor.
  - repeat constructor.
  - destruct (Nat.ltb _ 2); repeat constructor.
Qed.

Lemma to_full_width_encodable (c : char) :
  utf8_encodable c = true -> utf8_encodable (to_full_width c) = true.
Proof.
  apply full_width_marks with (P := fun c => utf8_encodable c = true).
  repeat constructor.
Qed.

Lemma normalize_text_encodable (x : str) :
  encodable x -> encodable (normalize_text x).
Proof.
  intros H. rewrite normalize_text_delete_map. unfold encodable.
  apply Forall_map. unfold re_sub_spaces.
  apply Forall_forall. intros c Hc. apply filter_In in Hc as [Hc _].
  apply to_full_width_encodable. unfold encodable in H.
  rewrite Forall_forall in H. now apply H.
Qed.

Lemma paragraphs_encodable (text : str) (min_length : Z) :
  encodable text ->
  Forall encodable (split_into_paragraphs text min_length).
Proof.
  intros H. apply Forall_forall. intros p Hp.
  apply Forall_forall. intros c Hc.
  destruct (paragraph_chars _ _ _ _ Hp Hc) as [->|Hin]; [reflexivity|].
  unfold encodable in H. rewrite Forall_forall in H. now apply H.
Qed.

(** The characters of the fields are characters of the file name, or the
    hyphens of the date, or the underscores of the page information. *)
Lemma metadata_spec_chars (unicode_isdigit : char -> bool) (filename : str)
      (c : char) :
  let m := extract_metadata_spec unicode_isdigit filename in
  In c (title m) \/ In c (date m) \/ In c (page_info m) ->
  In c filename \/ c = 45 \/ c = 95.
Proof.
  unfold extract_metadata_spec. cbn [title date page_info].
  pose proof (split_on_chars (char_eqb 95) (path_stem filename)) as Hchars.
  pose proof (split_on_not_nil (char_eqb 95) (path_stem filename)) as Hne.
  assert (Hfield : forall f, In f (split_on (char_eqb 95) (path_stem filename)) ->
                             In c f -> In c filename).
  { intros f Hf H. eapply path_stem_chars, Hchars; eassumption. }
  destruct (split_on (char_eqb 95) (path_stem filename)) as [|f0 fields];
    [contradiction|].
  cbn [nth]. intros [H|[H|H]].
  - left. apply (Hfield f0); [now left|exact H].
  - destruct fields as [|f1 fields]; [destruct H|]. cbn [nth_error] in H.
    unfold date_of_field in H. destruct (_ && _)%bool; [|destruct H].
    repeat (apply in_app_or in H as [H|H]);
      try (destruct H as [<-|[]]; right; now left);
      left; apply (Hfield f1); try (right; now left);
      repeat (apply firstn_incl in H || apply skipn_incl in H); exact H.
  - apply join_chars in H as [H|(p & Hp & H)].
    + destruct H as [<-|[]]. right. now right.
    + left. apply (Hfield p); [|exact H].
      rewrite <- (firstn_skipn 2 (f0 :: fields)). apply in_or_app. now right.
Qed.

Lemma metadata_spec_encodable (unicode_isdigit : char -> bool)
      (filename : str) :
  encodable filename ->
  let m := extract_metadata_spec unicode_isdigit filename in
  encodable (title m) /\ encodable (date m) /\ encodable (page_info m).
Proof.
  intros Hname m.
  assert (H : forall c, In c (title m) \/ In c (date m) \/ In c (page_info m) ->
                        utf8_encodable c = true).
  { intros c Hc. apply metadata_spec_chars in Hc as [Hc|[->| ->]];
      [|reflexivity|reflexivity].
    unfold encodable in Hname. rewrite Forall_forall in Hname.
    now apply Hname. }
  repeat split; apply Forall_forall; intros c Hc; apply H; tauto.
Qed.

Lemma output_text_encodable (m : Metadata) (st : Stats) (ps : list str) :
  encodable (title m) -> encodable (date m) -> encodable (page_info m) ->
  encodable (compression_ratio st) -> Forall encodable ps ->
  encodable (output_text m st ps).
Proof.
  intros Ht Hd Hp Hr Hps. unfold output_text, encodable.
  repeat (apply Forall_app; split);
    try assumption; try apply decimal_encodable;
    try (repeat constructor; fail).
  apply Forall_forall. intros c Hc.
  apply in_concat in Hc as (t & Ht' & Hc).
  apply in_map_iff in Ht' as (p & <- & Hin).
  apply in_app_or in Hc as [Hc|Hc].
  - rewrite Forall_forall in Hps. specialize (Hps p Hin).
    unfold encodable in Hps. rewrite Forall_forall in Hps. now apply Hps.
  - destruct Hc as [<-|[<-|[]]]; reflexivity.
Qed.

(** X21. A file that is not empty, under a name without line feed and
    without character that UTF-8 cannot encode (the content, read as UTF-8,
    has none), is cleaned and written when the output file can be written
    to: every character of the text written can be encoded, and the text
    has this layout: the six lines of the header, an empty line, a line of
    60 equals signs, an empty line, then each paragraph on a line of its
    own followed by an empty line.  So the paragraphs can be read back from
    the file, line by line.  When the title taken from the name holds a
    character that cannot be encoded, the write raises
    UnicodeEncodeError; when the output file cannot be written to, the
    function raises the error of the system. *)
Theorem cleaned_file_layout (unicode_isdigit : char -> bool) (name x : str) :
  x <> [] ->
  (~ In 10 name -> encodable name -> encodable x ->
   exists res text,
     clean_ocr_text_file_written unicode_isdigit name (Some x) true
     = ret (res, text)
     /\ clean_ocr_text_file unicode_isdigit name (Some x) = ret res
     /\ text = output_text (metadata res) (stats res) (paragraphs res)
     /\ encodable text
     /\ lines_of text
        = header_lines (metadata res) (stats res)
          ++ [[]; repeat 61 60; []]
          ++ flat_map (fun p => [p; []]) (paragraphs res) ++ [[]])
  /\ (~ encodable (title (extract_metadata_spec unicode_isdigit name)) ->
      clean_ocr_text_file_written unicode_isdigit name (Some x) true
      = raise UnicodeEncodeError)
  /\ clean_ocr_text_file_written unicode_isdigit name (Some x) false
     = raise OSError.
Proof.
  intros Hx. unfold clean_ocr_text_file_written.
  rewrite (clean_nonempty_file unicode_isdigit name x Hx).
  cbn [bind ret negb metadata stats paragraphs].
  set (m := extract_metadata_spec unicode_isdigit name).
  set (ps := split_into_paragraphs (normalize_text x) default_min_length).
  set (st := mkStats _ _ _ _ _).
  split; [|split; [|reflexivity]].
  - intros Hname Hen Hex.
    destruct (metadata_spec_no_lf unicode_isdigit name Hname) as (Ht & Hd & Hp).
    destruct (metadata_spec_encodable unicode_isdigit name Hen)
      as (Et & Ed & Ep).
    assert (Hps : Forall encodable ps)
      by now apply paragraphs_encodable, normalize_text_encodable.
    assert (Henc : encodable (output_text m st ps)).
    { apply output_text_encodable; try assumption.
      subst st. cbn [compression_ratio]. apply Forall_app.
      split; [apply format_2f_encodable|repeat constructor]. }
    eexists. exists (output_text m st ps).
    assert (Hall : forallb utf8_encodable (output_text m st ps) = true)
      by now apply forallb_forall, Forall_forall.
    rewrite Hall. split; [reflexivity|]. split; [reflexivity|].
    cbn [metadata stats paragraphs]. split; [reflexivity|].
    split; [exact Henc|].
    apply output_text_lines; try assumption.
    + subst st. cbn [compression_ratio]. intros H.
      apply in_app_or in H as [H|H].
      * now apply format_2f_no_lf in H.
      * simpl in H. intuition discriminate.
    + apply Forall_forall. intros p Hin Hc.
      destruct (paragraph_chars _ _ _ _ Hin Hc) as [E|Hn]; [discriminate E|].
      pose proof (normalize_text_no_space x) as Hns.
      unfold no_space in Hns. rewrite Forall_forall in Hns.
      specialize (Hns 10 Hn). discriminate Hns.
  - intros Hbad.
    destruct (forallb utf8_encodable (output_text m st ps)) eqn:Hall;
      [|reflexivity].
    exfalso. apply Hbad. apply Forall_forall. intros c Hc.
    rewrite forallb_forall in Hall. apply Hall.
    unfold output_text. apply in_or_app. left.
    apply in_or_app. right. apply in_or_app. now left.
Qed.

Lemma cleaned_file_layout_witness :
  exists res text,
    clean_ocr_text_file_written ascii_isdigit (lit "a_20240102.txt")
      (Some (lit "one two")) true = ret (res, text)
    /\ clean_ocr_text_file ascii_isdigit (lit "a_20240102.txt")
         (Some (lit "one two")) = ret res
    /\ text = output_text (metadata res) (stats res) (paragraphs res)
    /\ encodable text
    /\ lines_of text
       = header_lines (metadata res) (stats res)
         ++ [[]; repeat 61 60; []]
         ++ flat_map (fun p => [p; []]) (paragraphs res) ++ [[]].
Proof.
  refine (proj1 (cleaned_file_layout ascii_isdigit (lit "a_20240102.txt")
                   (lit "one two") _) _ _ _).
  - discriminate.
  - vm_compute. intuition discriminate.
  - repeat constructor.
  - repeat constructor.
Defined.

(** A text of two spaces is blank. *)
Lemma normalize_text_length_exact_witness : blank (lit "  ") = true.
Proof.
  apply (proj1 (proj2 (normalize_text_length_exact (lit "  ")))).
  reflexivity.
Defined.

(** ** Sentences of a normalized text, and the profile of each slice *)

Lemma split_on_fields_chars_prop (sep : char -> bool) (P : char -> Prop)
      (s : str) :
  Forall P s -> Forall (Forall P) (split_on sep s).
Proof.
  intros H. apply Forall_forall. intros f Hf.
  apply Forall_forall. intros c Hc. rewrite Forall_forall in H.
  apply H. eapply split_on_chars; eassumption.
Qed.

(** X22. On a normalized text the stripping of [split_into_sentences] does
    nothing: the sentences are the fragments between the terminators that
    have more than 5 characters, as they stand. *)
Theorem sentences_of_normalized_text (x : str) :
  split_into_sentences (normalize_text x)
  = filter (fun s => Nat.ltb 5 (length s))
           (split_on sentence_end (normalize_text x)).
Proof.
  unfold split_into_sentences.
  pose proof (split_on_fields_chars_prop sentence_end _ _
                (normalize_text_no_space x)) as Hfields.
  induction Hfields as [|f fields Hf _ IH]; [reflexivity|].
  cbn [filter]. rewrite (strip_no_space f Hf).
  destruct (Nat.ltb 5 (length f)); [|exact IH].
  cbn [map]. now rewrite (strip_no_space f Hf), IH.
Qed.

Section ProfileFacts.

Variable unicode_isalnum : char -> bool.
Variable engine : Engine.

Lemma ocr_slice_profiles (page_idx slice_idx : nat) (clip_rect : Rect) (r : Run) :
  profiles_follow engine r ->
  profiles_follow engine
    (ocr_slice unicode_isalnum engine page_idx slice_idx clip_rect r).
Proof.
  unfold profiles_follow, ocr_slice. intros H.
  assert (Hnew : langs_used r ++ profile_of_query engine (queries r)
                 = flat_map (profile_of_query engine) (seq 0 (S (queries r))))
    by (rewrite seq_S, flat_map_app, <- H; simpl; now rewrite app_nil_r).
  unfold profile_of_query at 1 in Hnew.
  destruct (get_languages engine (queries r)) as [answer|].
  - assert (E : (if (Nat.eqb slice_idx 1 && Nat.eqb page_idx 0)%bool
                 then select_lang answer else select_lang answer)
                = select_lang answer)
      by now destruct (_ && _)%bool.
    rewrite E.
    destruct (image_to_string engine page_idx clip_rect _) as [text|];
      [destruct (strip _)|]; exact Hnew.
  - cbn [queries langs_used]. now rewrite app_nil_r in Hnew.
Qed.

Lemma ocr_pages_profiles (fuel : nat) (doc : list Q) :
  forall page_idx r r',
    profiles_follow engine r ->
    ocr_pages unicode_isalnum engine fuel page_idx doc r = Some r' ->
    profiles_follow engine r'.
Proof.
  induction doc as [|page_h doc IH]; intros page_idx r r' Hr H; simpl in H.
  - now injection H as <-.
  - destruct (slice_loop _ page_h fuel 0 0 r) as [r1|] eqn:Hloop; [|discriminate].
    apply (IH (S page_idx) r1 r'); [|exact H].
    revert Hloop. apply slice_loop_invariant with (P := profiles_follow engine);
      [|exact Hr].
    intros idx clip st. apply ocr_slice_profiles.
Qed.

End ProfileFacts.

(** X23. With enough iterations allowed the driver returns, and the
    profiles it has used are those selected from the answers of the engine
    to its queries, in the order of the queries, a query that raises
    giving none.  Hence with an engine that always gives the same answer
    every slice is recognised with the same profile, and with an engine
    whose queries all raise no slice is recognised. *)
Theorem driver_profile_follows_answers
  (unicode_isalnum : char -> bool) (engine : Engine)
  (fuel : nat) (doc : list Q) :
  (1 <= fuel)%nat ->
  Forall (fun page_h => (slice_bound page_h <= fuel)%nat) doc ->
  exists r text,
    ocr_pdf_with_tesseract unicode_isalnum engine fuel doc = Some (r, text)
    /\ langs_used r
       = flat_map (fun k => match get_languages engine k with
                            | Some available_langs =>
                                [select_lang available_langs]
                            | None => []
                            end) (seq 0 (queries r))
    /\ (forall answer,
           (forall k, get_languages engine k = Some answer) ->
           Forall (fun lang => lang = select_lang answer) (langs_used r))
    /\ ((forall k, get_languages engine k = None) ->
        langs_used r = [] /\ text = []).
Proof.
  intros H1 Hdoc. unfold ocr_pdf_with_tesseract.
  destruct (ocr_pages_ends unicode_isalnum engine fuel doc H1 Hdoc 0%nat
              (mkRun 0 [] [])) as [r Hr].
  rewrite Hr. exists r, (join [10; 10] (full_content r)).
  assert (Hfollow : profiles_follow engine r)
    by (revert Hr; apply ocr_pages_profiles; reflexivity).
  split; [reflexivity|]. split; [exact Hfollow|]. split.
  - intros answer Hstable. rewrite Hfollow.
    apply Forall_forall. intros lang Hin.
    apply in_flat_map in Hin as (k & _ & Hk).
    unfold profile_of_query in Hk. rewrite Hstable in Hk.
    destruct Hk as [<-|[]]. reflexivity.
  - intros Hraise.
    assert (Hl : langs_used r = []).
    { rewrite Hfollow. generalize (seq 0 (queries r)). intros l.
      induction l as [|k l IH]; [reflexivity|]. simpl.
      unfold profile_of_query at 1. now rewrite Hraise. }
    split; [exact Hl|].
    destruct (ocr_pages_added unicode_isalnum engine fuel doc 0%nat _ r Hr)
      as (slices & _ & _ & _ & _ & _ & Hf & _).
    rewrite Hl in Hf. cbn [full_content langs_used length] in Hf.
    destruct (full_content r); [reflexivity|simpl in Hf; lia].
Qed.

Lemma driver_profile_follows_answers_witness :
  exists r text,
    ocr_pdf_with_tesseract ascii_isalnum changing_engine 2 [2000%Q]
    = Some (r, text)
    /\ langs_used r
       = flat_map (fun k => match get_languages changing_engine k with
                            | Some available_langs =>
                                [select_lang available_langs]
                            | None => []
                            end) (seq 0 (queries r))
    /\ (forall answer,
           (forall k, get_languages changing_engine k = Some answer) ->
           Forall (fun lang => lang = select_lang answer) (langs_used r))
    /\ ((forall k, get_languages changing_engine k = None) ->
        langs_used r = [] /\ text = []).
Proof.
  apply (driver_profile_follows_answers ascii_isalnum changing_engine 2
           [2000%Q]).
  - apply Nat.leb_le. reflexivity.
  - repeat constructor; apply Nat.leb_le; reflexivity.
Defined.
